(** * Shooter firmware: speed controllers and the load/fire sequencer

    A shallow embedding of [mission_systems/shooter/firmware/shooter.cpp]
    (the [USE_LINEAR_FEEDER] build, which the file selects on line 11).

    Integers are the ones of the AVR boards the sketch is written for:
    [int] is 16 bits, [long] and [unsigned long] are 32 bits; arithmetic
    outside the range wraps in two's complement.  The hardware is the board
    state (pin levels and PWM duties) and, for the Victor, the servo object it
    owns; [millis()] is an input of every operation that reads the clock. *)

From Stdlib Require Import ZArith List Bool Lia String.
Import ListNotations.
Open Scope Z_scope.

(** ** Machine integers *)

Definition wrap (bits z : Z) : Z :=
  (z + 2 ^ (bits - 1)) mod 2 ^ bits - 2 ^ (bits - 1).

Definition INT_BITS : Z := 16.
Definition LONG_BITS : Z := 32.

Definition to_int (z : Z) : Z := wrap INT_BITS z.
Definition to_long (z : Z) : Z := wrap LONG_BITS z.
Definition to_ulong (z : Z) : Z := z mod 2 ^ LONG_BITS.

Definition int_range (z : Z) : Prop := -32768 <= z <= 32767.
Definition long_range (z : Z) : Prop := -2147483648 <= z <= 2147483647.

(** ** The Arduino core the sketch calls *)

Module Arduino.

Definition LOW : Z := 0.
Definition HIGH : Z := 1.

(** [long map(long x, long in_min, long in_max, long out_min, long out_max)]
      of the Arduino core (WMath.cpp):
      [(x - in_min) * (out_max - out_min) / (in_max - in_min) + out_min],
      computed on [long] with C's division, which truncates toward zero. *)
Definition map (x in_min in_max out_min out_max : Z) : Z :=
    to_long
      (Z.quot (to_long (to_long (x - in_min) * to_long (out_max - out_min)))
              (to_long (in_max - in_min))
       + out_min).

(** Output lines of the board: the level last written to a pin with
      [digitalWrite] and the duty last written to it with [analogWrite]. *)
Record Board : Type := mkBoard {
    digital : Z -> Z;
    analog : Z -> Z
  }.

Definition upd (f : Z -> Z) (pin v : Z) : Z -> Z :=
    fun q => if q =? pin then v else f q.

Definition digitalWrite (pin v : Z) (b : Board) : Board :=
    mkBoard (upd (digital b) pin v) (analog b).

(** [void analogWrite(uint8_t pin, int val)] *)
Definition analogWrite (pin v : Z) (b : Board) : Board :=
    mkBoard (digital b) (upd (analog b) pin (to_int v)).

Definition board0 : Board := mkBoard (fun _ => LOW) (fun _ => 0).

(** The Servo library object: the pin it is attached to and the pulse
      widths handed to [writeMicroseconds], most recent first. *)
Record Servo : Type := mkServo {
    attached : option Z;
    pulses : list Z
  }.

Definition Servo0 : Servo := mkServo None [].
Definition attach (pin : Z) (s : Servo) : Servo := mkServo (Some pin) (pulses s).
Definition writeMicroseconds (us : Z) (s : Servo) : Servo :=
    mkServo (attached s) (us :: pulses s).

End Arduino.

Import Arduino.

Definition SHOOTER_PIN : Z := 3.
Definition FEEDER_A_PIN : Z := 8.
Definition FEEDER_B_PIN : Z := 9.
Definition FEEDER_PWM_PIN : Z := 5.

(** ** class SpeedController *)

(** The two virtual methods and the [reversed] field every controller has.
    A method runs on the object and on the board it writes to. *)
Class SpeedController (A : Type) : Type := {
  reversed : A -> bool;
  put_reversed : bool -> A -> A;
  _set : Z -> A -> Board -> A * Board;
  _get : A -> Z
}.

Section SpeedControllerMethods.
Context {A : Type} `{SpeedController A}.

Definition set (s : Z) (a : A) (b : Board) : A * Board :=
    if reversed a then _set (to_int (- s)) a b else _set s a b.

Definition get (a : A) : Z :=
    if reversed a then to_int (- _get a) else _get a.

Definition setReversed (r : bool) (a : A) : A := put_reversed r a.

Definition on : A -> Board -> A * Board := set 100.
Definition off : A -> Board -> A * Board := set 0.
Definition reverse : A -> Board -> A * Board := set (-100).
End SpeedControllerMethods.

(** ** class Victor : the shooter's ramped controller *)

Record Victor : Type := mkVictor {
  v_reversed : bool;
  controller : Servo;
  goal : Z;
  cur : Z;
  pin : Z
}.

Module VictorImpl.

(** [_set] only moves the goal; its [nh.logdebug] call writes no state. *)
Definition _set (s : Z) (v : Victor) (b : Board) : Victor * Board :=
    (mkVictor (v_reversed v) (controller v)
              (to_int (Arduino.map s (-100) 100 1000 2000)) (cur v) (pin v),
     b).

Definition _get (v : Victor) : Z :=
    to_int (Arduino.map (cur v) 1000 2000 (-100) 100).

Definition put_reversed (r : bool) (v : Victor) : Victor :=
    mkVictor r (controller v) (goal v) (cur v) (pin v).

(** [Victor(int p)] *)
Definition new (p : Z) : Victor := mkVictor false Servo0 1500 1500 p.

Definition init (v : Victor) : Victor :=
    mkVictor (v_reversed v)
             (writeMicroseconds 1500 (attach (pin v) (controller v)))
             1500 1500 (pin v).

(** [void run()]: one ramp step. *)
Definition run (v : Victor) : Victor :=
    if negb (cur v =? goal v) then
      let cur' :=
        if goal v =? 1500 then 1500
        else if goal v <? 1500 then to_int (cur v - 100)
        else if goal v >? 1500 then to_int (cur v + 100)
        else cur v in
      mkVictor (v_reversed v) (writeMicroseconds cur' (controller v))
               (goal v) cur' (pin v)
    else v.

End VictorImpl.

#[export] Instance Victor_SpeedController : SpeedController Victor := {
  reversed := v_reversed;
  put_reversed := VictorImpl.put_reversed;
  _set := VictorImpl._set;
  _get := VictorImpl._get
}.

(** ** class Pololu : the feeder's direction-pin controller *)

Record Pololu : Type := mkPololu {
  p_reversed : bool;
  inA_pin : Z;
  inB_pin : Z;
  pwm_pin : Z;
  speed : Z
}.

Module PololuImpl.

Definition with_speed (s : Z) (p : Pololu) : Pololu :=
    mkPololu (p_reversed p) (inA_pin p) (inB_pin p) (pwm_pin p) s.

Definition _set (s : Z) (p : Pololu) (b : Board) : Pololu * Board :=
    let p' := with_speed s p in
    if s =? 0 then
      (p', analogWrite (pwm_pin p) 0
             (digitalWrite (inB_pin p) LOW (digitalWrite (inA_pin p) LOW b)))
    else if s <? 0 then
      (p', analogWrite (pwm_pin p) (Arduino.map s 0 (-100) 0 255)
             (digitalWrite (inB_pin p) LOW (digitalWrite (inA_pin p) HIGH b)))
    else if s >? 0 then
      (p', analogWrite (pwm_pin p) (Arduino.map s 0 100 0 255)
             (digitalWrite (inB_pin p) HIGH (digitalWrite (inA_pin p) LOW b)))
    else (p', b).

Definition _get (p : Pololu) : Z := speed p.

Definition put_reversed (r : bool) (p : Pololu) : Pololu :=
    mkPololu r (inA_pin p) (inB_pin p) (pwm_pin p) (speed p).

(** [Pololu(int a, int b, int pwm)] *)
Definition new (a b pwm : Z) : Pololu := mkPololu false a b pwm 0.

End PololuImpl.

#[export] Instance Pololu_SpeedController : SpeedController Pololu := {
  reversed := p_reversed;
  put_reversed := PololuImpl.put_reversed;
  _set := PololuImpl._set;
  _get := PololuImpl._get
}.

(** The three output lines of a Pololu: (inA, inB, PWM duty). *)
Definition lines (p : Pololu) (b : Board) : Z * Z * Z :=
  (digital b (inA_pin p), digital b (inB_pin p), analog b (pwm_pin p)).

(** ** The global objects and [class AutoController] *)

Record AutoController : Type := mkAuto {
  state : Z;
  start_load_time : Z;
  start_fire_time : Z;
  loaded : bool
}.

Record World : Type := mkWorld {
  shooter : Victor;
  feeder : Pololu;
  autoController : AutoController;
  board : Board
}.

(** A call of a [SpeedController] method on the global [shooter] / [feeder]. *)
Definition on_shooter (m : Victor -> Board -> Victor * Board) (w : World) : World :=
  let '(v, b) := m (shooter w) (board w) in
  mkWorld v (feeder w) (autoController w) b.

Definition on_feeder (m : Pololu -> Board -> Pololu * Board) (w : World) : World :=
  let '(p, b) := m (feeder w) (board w) in
  mkWorld (shooter w) p (autoController w) b.

Definition with_auto (a : AutoController) (w : World) : World :=
  mkWorld (shooter w) (feeder w) a (board w).

Module Auto.

(** All times in milliseconds ([static const unsigned long]). *)
Definition SPIN_UP_TIME : Z := 1000.
Definition RETRACT_TIME : Z := 1000.
Definition LOAD_TIME : Z := 650.
Definition QUICKFIRE_TIME : Z := 300.

(** [millis() - start] on [unsigned long]. *)
Definition elapsed (now start : Z) : Z := to_ulong (now - start).

Definition reset (w : World) : World :=
    with_auto (mkAuto 0 0 0 false) w.

Definition runLoad (now : Z) (w : World) : World :=
    let cur_time := elapsed now (start_load_time (autoController w)) in
    if cur_time <? RETRACT_TIME then on_feeder reverse w
    else if cur_time <? to_ulong (RETRACT_TIME + LOAD_TIME) then on_feeder on w
    else
      let w1 := on_shooter on (on_feeder off w) in
      with_auto (mkAuto 0 0 (start_fire_time (autoController w1)) true) w1.

Definition runFire (now : Z) (w : World) : World :=
    let cur_time := elapsed now (start_fire_time (autoController w)) in
    if cur_time <? QUICKFIRE_TIME then on_feeder on (on_shooter on w)
    else
      let w1 := on_shooter off (on_feeder off w) in
      with_auto (mkAuto 0 (start_load_time (autoController w1)) 0 false) w1.

(** [AutoController()] *)
Definition new : AutoController := mkAuto 0 0 0 false.

Definition load (now : Z) (w : World) : World :=
    let a := autoController w in
    with_auto (mkAuto 1 now (start_fire_time a) false) w.

Definition fire (now : Z) (w : World) : World :=
    let a := autoController w in
    with_auto (mkAuto 2 (start_load_time a) now (loaded a)) w.

Definition cancel (w : World) : World :=
    reset (on_shooter off (on_feeder off w)).

Definition run (now : Z) (w : World) : World :=
    let s := state (autoController w) in
    if s =? 0 then w
    else if s =? 1 then runLoad now w
    else if s =? 2 then runFire now w
    else w.

End Auto.

(** ** class Comms: the four service callbacks *)

Module Comms.

(** [std_srvs::Trigger::Response] and the request and response of
      [navigator_msgs::ShooterManual]; a [Trigger] request has no fields. *)
Record TriggerResponse : Type := mkTriggerResponse {
    success : bool;
    message : string
  }.

Record ManualRequest : Type := mkManualRequest {
    req_feeder : Z;
    req_shooter : Z
  }.

Record ManualResponse : Type := mkManualResponse {
    manual_success : bool
  }.

Definition fireCallback (now : Z) (req : unit) (res : TriggerResponse) (w : World)
    : TriggerResponse * World :=
    (mkTriggerResponse true (message res), Auto.fire now w).

Definition loadCallback (now : Z) (req : unit) (res : TriggerResponse) (w : World)
    : TriggerResponse * World :=
    (mkTriggerResponse true (message res), Auto.load now w).

Definition cancelCallback (req : unit) (res : TriggerResponse) (w : World)
    : TriggerResponse * World :=
    (mkTriggerResponse true (message res), Auto.cancel w).

Definition manualCallback (req : ManualRequest) (res : ManualResponse) (w : World)
    : ManualResponse * World :=
    (res,
     on_shooter (set (req_shooter req))
       (on_feeder (set (req_feeder req)) (Auto.cancel w))).

(** The response objects a service server hands to its callback: the
      generated message constructors start [success] at [false]. *)
Definition TriggerResponse0 : TriggerResponse := mkTriggerResponse false "".
Definition ManualResponse0 : ManualResponse := mkManualResponse false.

End Comms.

(** ** [setup()] and [loop()] *)

(** The globals as their constructors leave them. *)
Definition world0 : World :=
  mkWorld (VictorImpl.new SHOOTER_PIN)
          (PololuImpl.new FEEDER_A_PIN FEEDER_B_PIN FEEDER_PWM_PIN)
          Auto.new board0.

(** [setup()]: the shooter is reversed and initialised; [feeder.init()]
    (three [pinMode] calls) and [com.init()] write none of the lines kept
    here. *)
Definition setup (w : World) : World :=
  mkWorld (VictorImpl.init (setReversed true (shooter w)))
          (feeder w) (autoController w) (board w).

(** One pass of [loop()] after the pending requests were served:
    [autoController.run(); shooter.run();]. *)
Definition loop_body (now : Z) (w : World) : World :=
  let w1 := Auto.run now w in
  mkWorld (VictorImpl.run (shooter w1)) (feeder w1) (autoController w1) (board w1).

(** [n] calls of [Victor::run]. *)
Definition run_n (n : nat) (v : Victor) : Victor := Nat.iter n VictorImpl.run v.

(** Calls made on the sequencer: the three commands and the periodic tick,
    each with the clock value it reads. *)
Inductive Command : Type :=
| CmdLoad (now : Z)
| CmdFire (now : Z)
| CmdCancel.

Inductive Call : Type :=
| Cmd (c : Command)
| Tick (now : Z).

Definition do_command (c : Command) (w : World) : World :=
  match c with
  | CmdLoad now => Auto.load now w
  | CmdFire now => Auto.fire now w
  | CmdCancel => Auto.cancel w
  end.

Definition do_call (c : Call) (w : World) : World :=
  match c with
  | Cmd c => do_command c w
  | Tick now => Auto.run now w
  end.

Definition do_calls (cs : list Call) (w : World) : World :=
  fold_left (fun w c => do_call c w) cs w.

Definition do_commands (cs : list Command) (w : World) : World :=
  fold_left (fun w c => do_command c w) cs w.

Definition ticks (ts : list Z) (w : World) : World :=
  fold_left (fun w t => Auto.run t w) ts w.

Definition Idle : Z := 0.
Definition Loading : Z := 1.
Definition Firing : Z := 2.

Definition loading_active (w : World) : bool := state (autoController w) =? Loading.
Definition firing_active (w : World) : bool := state (autoController w) =? Firing.

(** ** Observations used in the statements *)

(** The duty the feeder writes: the percentage scaled to 0..255 and
    truncated. *)
Definition duty (x : Z) : Z := Z.abs x * 255 / 100.

(** The number of calls the ramp is expected to take:
    ceil(|goal - cur| / 100). *)
Definition calls_needed (v : Victor) : Z := (Z.abs (goal v - cur v) + 99) / 100.

(** The shooter as [setup()] leaves it: reversed, at neutral. *)
Definition shooter_ready : Victor := shooter (setup world0).

(** The side of neutral the ramp walks to: +100 per call for a goal above
    1500, -100 for a goal below. *)
Definition ramp_step (v : Victor) : Z := if goal v >? 1500 then 100 else -100.

Inductive Pattern : Type := Stopped | Forward | Backward.

(** The pattern the three lines show, if any. *)
Definition pattern (l : Z * Z * Z) : option Pattern :=
  let '(a, b, d) := l in
  if (a =? LOW) && (b =? LOW) then (if d =? 0 then Some Stopped else None)
  else if (a =? LOW) && (b =? HIGH) then Some Forward
  else if (a =? HIGH) && (b =? LOW) then Some Backward
  else None.

Definition pattern_of_sign (x : Z) : Pattern :=
  if x =? 0 then Stopped else if x <? 0 then Backward else Forward.

(** The duty the specification words ask for: x/100 * 255 rounded to the
    nearest integer. *)
Definition rounded_duty (x : Z) : Z := (2 * (Z.abs x * 255) + 100) / 200.

(** The wiring no method writes: the two [reversed] flags and the feeder's
    pins. *)
Definition config (w : World) : bool * bool * Z * Z * Z :=
  (v_reversed (shooter w), p_reversed (feeder w),
   inA_pin (feeder w), inB_pin (feeder w), pwm_pin (feeder w)).

Definition feeder_lines (w : World) : Z * Z * Z := lines (feeder w) (board w).

(** What [on()] and [reverse()] put on the feeder's lines, and the goal
    [on()] gives the shooter. *)
Definition lines_on (p : Pololu) : Z * Z * Z :=
  if p_reversed p then (HIGH, LOW, 255) else (LOW, HIGH, 255).

Definition lines_reverse (p : Pololu) : Z * Z * Z :=
  if p_reversed p then (LOW, HIGH, 255) else (HIGH, LOW, 255).

Definition goal_on (v : Victor) : Z := if v_reversed v then 1000 else 2000.

Definition wired (w : World) : Prop := inA_pin (feeder w) <> inB_pin (feeder w).

(** Calls that leave a set [loaded] flag alone: all but cancel() and load(). *)
Definition keeps_loaded (c : Call) : bool :=
  match c with
  | Cmd CmdCancel => false
  | Cmd (CmdLoad _) => false
  | _ => true
  end.

(** ** Calls on a Victor *)

(** What the program does to the shooter object: [set], [run] and
    [setReversed].  A Victor writes no board line, so the board is left
    out. *)
Inductive VictorOp : Type :=
| VSet (s : Z)
| VRun
| VSetReversed (r : bool).

Definition victor_do (op : VictorOp) (v : Victor) : Victor :=
  match op with
  | VSet s => fst (set s v board0)
  | VRun => VictorImpl.run v
  | VSetReversed r => setReversed r v
  end.

Definition victor_ops (ops : list VictorOp) (v : Victor) : Victor :=
  fold_left (fun v op => victor_do op v) ops v.

(** The pulse the servo shows: the last one written. *)
Definition servo_pulse (v : Victor) : option Z := hd_error (pulses (controller v)).

(** ** The continuous-feed [AutoController] and its callbacks

    The [#else] branch of [USE_LINEAR_FEEDER]: one timer, no load phase. *)

Module Continuous.

Record AutoController : Type := mkAuto {
  start_shoot_time : Z;
  auto_shoot : bool
}.

Record World : Type := mkWorld {
  shooter : Victor;
  feeder : Pololu;
  autoController : AutoController;
  board : Board
}.

Definition on_shooter (m : Victor -> Board -> Victor * Board) (w : World) : World :=
  let '(v, b) := m (shooter w) (board w) in
  mkWorld v (feeder w) (autoController w) b.

Definition on_feeder (m : Pololu -> Board -> Pololu * Board) (w : World) : World :=
  let '(p, b) := m (feeder w) (board w) in
  mkWorld (shooter w) p (autoController w) b.

Definition with_auto (a : AutoController) (w : World) : World :=
  mkWorld (shooter w) (feeder w) a (board w).

Definition SPIN_UP_TIME : Z := 1000.
Definition SHOOT_TIME : Z := 12000.
Definition TOTAL_TIME : Z := to_ulong (SPIN_UP_TIME + SHOOT_TIME).
Definition FEED_SPEED : Z := 50.

(** [AutoController()] *)
Definition new : AutoController := mkAuto 0 false.

Definition shoot (now : Z) (w : World) : World :=
  with_auto (mkAuto now true) (on_shooter off (on_feeder off w)).

Definition cancel (w : World) : World :=
  let w1 := on_shooter off (on_feeder off w) in
  with_auto (mkAuto (start_shoot_time (autoController w1)) false) w1.

Definition shooting (w : World) : bool := auto_shoot (autoController w).

Definition run (now : Z) (w : World) : World :=
  if auto_shoot (autoController w) then
    let time_since_start := to_ulong (now - start_shoot_time (autoController w)) in
    if time_since_start <? SPIN_UP_TIME then on_shooter on w
    else if (time_since_start >? SPIN_UP_TIME) && (time_since_start <? TOTAL_TIME)
         then on_feeder on w
    else if time_since_start >? TOTAL_TIME then cancel w
    else w
  else w.

Definition fireCallback (now : Z) (req : unit) (res : Comms.TriggerResponse) (w : World)
  : Comms.TriggerResponse * World :=
  (Comms.mkTriggerResponse true (Comms.message res), shoot now w).

Definition cancelCallback (req : unit) (res : Comms.TriggerResponse) (w : World)
  : Comms.TriggerResponse * World :=
  (Comms.mkTriggerResponse true (Comms.message res), cancel w).

Definition manualCallback
  (req : Comms.ManualRequest) (res : Comms.ManualResponse) (w : World)
  : Comms.ManualResponse * World :=
  (Comms.mkManualResponse true,
   on_shooter (set (Comms.req_shooter req))
     (on_feeder (set (Comms.req_feeder req)) (cancel w))).

Definition ticks (ts : list Z) (w : World) : World :=
  fold_left (fun w t => run t w) ts w.

Definition feeder_lines (w : World) : Z * Z * Z := lines (feeder w) (board w).

Definition wired (w : World) : Prop := inA_pin (feeder w) <> inB_pin (feeder w).

(** [millis() - start_shoot_time] for a clock reading [now]. *)
Definition since (now : Z) (w : World) : Z :=
  to_ulong (now - start_shoot_time (autoController w)).

End Continuous.

(** The calls that are a [load()]. *)
Definition is_load (c : Call) : bool :=
  match c with
  | Cmd (CmdLoad _) => true
  | _ => false
  end.

(** [loop()] passes at the given clock readings, no request in between. *)
Definition loops (ts : list Z) (w : World) : World :=
  fold_left (fun w t => loop_body t w) ts w.

(** * Properties *)

(** ** Machine integers and [map] *)

Lemma to_int_id (z : Z) : int_range z -> to_int z = z.
Proof.
  unfold int_range, to_int, wrap, INT_BITS. intros Hz.
  change (2 ^ (16 - 1)) with 32768. change (2 ^ 16) with 65536.
  rewrite Z.mod_small; lia.
Qed.

Lemma to_long_id (z : Z) : long_range z -> to_long z = z.
Proof.
  unfold long_range, to_long, wrap, LONG_BITS. intros Hz.
  change (2 ^ (32 - 1)) with 2147483648. change (2 ^ 32) with 4294967296.
  rewrite Z.mod_small; lia.
Qed.

Lemma to_int_range (z : Z) : int_range (to_int z).
Proof.
  unfold int_range, to_int, wrap, INT_BITS.
  change (2 ^ (16 - 1)) with 32768. change (2 ^ 16) with 65536.
  pose proof (Z.mod_pos_bound (z + 32768) 65536). lia.
Qed.

Lemma to_int_opp_opp (z : Z) : int_range z -> to_int (- to_int (- z)) = z.
Proof.
  intros Hz. unfold int_range in Hz.
  destruct (Z.eq_dec z (-32768)) as [-> | Hne].
  - reflexivity.
  - rewrite (to_int_id (- z)) by (unfold int_range; lia).
    rewrite Z.opp_involutive. apply to_int_id. exact Hz.
Qed.

(** Percent to pulse width: [map(x, -100, 100, 1000, 2000)]. *)
Lemma map_percent_pulse (x : Z) :
  -100 <= x <= 100 -> Arduino.map x (-100) 100 1000 2000 = 1500 + 5 * x.
Proof.
  intros Hx. unfold Arduino.map.
  rewrite (to_long_id (x - -100)) by (unfold long_range; lia).
  rewrite (to_long_id (2000 - 1000)) by (unfold long_range; lia).
  rewrite (to_long_id (100 - -100)) by (unfold long_range; lia).
  rewrite (to_long_id ((x - -100) * (2000 - 1000))) by (unfold long_range; lia).
  replace ((x - -100) * (2000 - 1000)) with ((5 * (x + 100)) * (100 - -100)) by lia.
  rewrite Z.quot_mul by lia.
  rewrite to_long_id by (unfold long_range; lia). lia.
Qed.

(** Pulse width back to percent: [map(c, 1000, 2000, -100, 100)]. *)
Lemma map_pulse_percent (x : Z) :
  -100 <= x <= 100 -> Arduino.map (1500 + 5 * x) 1000 2000 (-100) 100 = x.
Proof.
  intros Hx. unfold Arduino.map.
  rewrite (to_long_id (1500 + 5 * x - 1000)) by (unfold long_range; lia).
  rewrite (to_long_id (100 - -100)) by (unfold long_range; lia).
  rewrite (to_long_id (2000 - 1000)) by (unfold long_range; lia).
  rewrite (to_long_id ((1500 + 5 * x - 1000) * (100 - -100))) by (unfold long_range; lia).
  replace ((1500 + 5 * x - 1000) * (100 - -100)) with ((x + 100) * (2000 - 1000)) by lia.
  rewrite Z.quot_mul by lia.
  rewrite to_long_id by (unfold long_range; lia). lia.
Qed.

Lemma map_duty_forward (x : Z) :
  0 <= x -> int_range x -> Arduino.map x 0 100 0 255 = duty x.
Proof.
  unfold int_range, duty. intros H0 Hx. unfold Arduino.map.
  rewrite !Z.sub_0_r.
  rewrite (to_long_id x) by (unfold long_range; lia).
  rewrite (to_long_id 255) by (unfold long_range; lia).
  rewrite (to_long_id 100) by (unfold long_range; lia).
  rewrite (to_long_id (x * 255)) by (unfold long_range; lia).
  rewrite Z.quot_div_nonneg by lia.
  rewrite Z.add_0_r, Z.abs_eq by lia.
  apply to_long_id. unfold long_range.
  assert (0 <= x * 255 / 100) by (apply Z.div_pos; lia).
  assert (x * 255 / 100 <= x * 255) by (apply Z.div_le_upper_bound; lia).
  lia.
Qed.

Lemma map_duty_backward (x : Z) :
  x <= 0 -> int_range x -> Arduino.map x 0 (-100) 0 255 = duty x.
Proof.
  unfold int_range, duty. intros H0 Hx. unfold Arduino.map.
  rewrite !Z.sub_0_r. change (-100 - 0) with (-100).
  rewrite (to_long_id x) by (unfold long_range; lia).
  rewrite (to_long_id 255) by (unfold long_range; lia).
  rewrite (to_long_id (-100)) by (unfold long_range; lia).
  rewrite (to_long_id (x * 255)) by (unfold long_range; lia).
  replace (x * 255) with (- (Z.abs x * 255)) by lia.
  change (-100) with (Z.opp 100).
  rewrite Z.quot_opp_opp by lia.
  rewrite Z.quot_div_nonneg by lia.
  rewrite Z.add_0_r.
  apply to_long_id. unfold long_range.
  assert (0 <= Z.abs x * 255 / 100) by (apply Z.div_pos; lia).
  assert (Z.abs x * 255 / 100 <= Z.abs x * 255) by (apply Z.div_le_upper_bound; lia).
  lia.
Qed.

(** ** Victor: goal, ramp and fast stop *)

Lemma Victor_set_goal (v : Victor) (b : Board) (s : Z) :
  -100 <= s <= 100 ->
  goal (fst (set s v b)) = (if v_reversed v then 1500 - 5 * s else 1500 + 5 * s)
  /\ cur (fst (set s v b)) = cur v
  /\ v_reversed (fst (set s v b)) = v_reversed v.
Proof.
  intros Hs. unfold set.
  cbn [reversed _set Victor_SpeedController].
  destruct (v_reversed v) eqn:Hr;
    cbn [VictorImpl._set fst goal cur v_reversed]; rewrite ?Hr.
  - rewrite (to_int_id (- s)) by (unfold int_range; lia).
    rewrite map_percent_pulse by lia.
    rewrite to_int_id by (unfold int_range; lia). repeat split; lia.
  - rewrite map_percent_pulse by lia.
    rewrite to_int_id by (unfold int_range; lia). repeat split; lia.
Qed.

Lemma run_keeps (v : Victor) :
  goal (VictorImpl.run v) = goal v
  /\ v_reversed (VictorImpl.run v) = v_reversed v
  /\ pin (VictorImpl.run v) = pin v.
Proof.
  unfold VictorImpl.run. destruct (negb (cur v =? goal v)); simpl; auto.
Qed.

Lemma run_n_S (n : nat) (v : Victor) : run_n (S n) v = VictorImpl.run (run_n n v).
Proof. reflexivity. Qed.

Lemma run_n_keeps (n : nat) (v : Victor) :
  goal (run_n n v) = goal v /\ v_reversed (run_n n v) = v_reversed v.
Proof.
  induction n as [| n [IHg IHr]]; [split; reflexivity |].
  rewrite run_n_S. destruct (run_keeps (run_n n v)) as (Hg & Hr & _).
  split; congruence.
Qed.

Lemma run_at_goal (v : Victor) : cur v = goal v -> VictorImpl.run v = v.
Proof.
  intros H. unfold VictorImpl.run. rewrite H, Z.eqb_refl. reflexivity.
Qed.

Lemma run_cur_int_range (v : Victor) :
  int_range (cur v) -> int_range (cur (VictorImpl.run v)).
Proof.
  intros Hc. unfold VictorImpl.run.
  destruct (negb (cur v =? goal v)); simpl; [| exact Hc].
  destruct (goal v =? 1500); [unfold int_range; lia |].
  destruct (goal v <? 1500); [apply to_int_range |].
  destruct (goal v >? 1500); [apply to_int_range | exact Hc].
Qed.

(** [cur] is an [int]: however often [run] is called, it stays in the
    range of the type. *)
Lemma run_n_cur_int_range (n : nat) (v : Victor) :
  int_range (cur v) -> int_range (cur (run_n n v)).
Proof.
  intros Hc. induction n as [| n IH]; [exact Hc |].
  rewrite run_n_S. apply run_cur_int_range, IH.
Qed.

(** C9: when the goal is the neutral value 1500 and [cur] differs from it,
    one call of [run] sets [cur] to 1500, whatever the distance, and writes
    1500 to the servo. *)
Theorem Victor_fast_stop (v : Victor)
  (Hgoal : goal v = 1500) (Hcur : cur v <> 1500) :
  cur (VictorImpl.run v) = 1500
  /\ pulses (controller (VictorImpl.run v)) = 1500 :: pulses (controller v)
  /\ goal (VictorImpl.run v) = 1500.
Proof.
  unfold VictorImpl.run. rewrite Hgoal.
  destruct (cur v =? 1500) eqn:E; [apply Z.eqb_eq in E; contradiction |].
  simpl. repeat split; reflexivity.
Qed.

Lemma Victor_fast_stop_witness :
  let v := mkVictor true Servo0 1500 1000 SHOOTER_PIN in
  cur (VictorImpl.run v) = 1500
  /\ pulses (controller (VictorImpl.run v)) = 1500 :: pulses (controller v)
  /\ goal (VictorImpl.run v) = 1500.
Proof.
  apply (Victor_fast_stop (mkVictor true Servo0 1500 1000 SHOOTER_PIN)).
  - reflexivity.
  - simpl. lia.
Defined.

(** [off()] makes 1500 the goal, so the call of [run] after it leaves
    [cur] at 1500. *)
Lemma Victor_off_run (v : Victor) (b : Board) :
  goal (fst (off v b)) = 1500 /\ cur (VictorImpl.run (fst (off v b))) = 1500.
Proof.
  destruct (Victor_set_goal v b 0 ltac:(lia)) as (Hg & Hc & _).
  fold (@off Victor _) in Hg, Hc.
  assert (Hg' : goal (fst (off v b)) = 1500) by (rewrite Hg; destruct (v_reversed v); lia).
  split; [exact Hg' |].
  unfold VictorImpl.run. rewrite Hg'.
  destruct (cur (fst (off v b)) =? 1500) eqn:E; simpl.
  - apply Z.eqb_eq in E. exact E.
  - reflexivity.
Qed.

(** While [cur] has not met the goal and stays inside the [int] range, a
    call of [run] moves it by 100 away from neutral on the goal's side. *)
Lemma run_step_up (v : Victor) :
  1500 < goal v -> cur v <> goal v -> cur v + 100 <= 32767 -> -32768 <= cur v ->
  cur (VictorImpl.run v) = cur v + 100.
Proof.
  intros Hg Hne Hhi Hlo. unfold VictorImpl.run.
  destruct (cur v =? goal v) eqn:E; [apply Z.eqb_eq in E; contradiction |].
  cbn [negb cur].
  destruct (goal v =? 1500) eqn:E0; [apply Z.eqb_eq in E0; lia |].
  destruct (goal v <? 1500) eqn:E1; [apply Z.ltb_lt in E1; lia |].
  destruct (goal v >? 1500) eqn:E2.
  - apply to_int_id. unfold int_range. lia.
  - rewrite Z.gtb_ltb in E2. apply Z.ltb_ge in E2. lia.
Qed.

Lemma run_step_down (v : Victor) :
  goal v < 1500 -> cur v <> goal v -> -32768 <= cur v - 100 -> cur v <= 32767 ->
  cur (VictorImpl.run v) = cur v - 100.
Proof.
  intros Hg Hne Hlo Hhi. unfold VictorImpl.run.
  destruct (cur v =? goal v) eqn:E; [apply Z.eqb_eq in E; contradiction |].
  cbn [negb cur].
  destruct (goal v =? 1500) eqn:E0; [apply Z.eqb_eq in E0; lia |].
  destruct (goal v <? 1500) eqn:E1.
  - apply to_int_id. unfold int_range. lia.
  - apply Z.ltb_ge in E1. lia.
Qed.

(** Where the ramp does arrive: a goal above neutral, [k] whole steps above
    [cur], is met after exactly [k] calls, one step at a time. *)
Lemma ramp_up_arrives (v : Victor) (k j : nat) :
  1500 < goal v -> goal v = cur v + 100 * Z.of_nat k ->
  int_range (goal v) -> int_range (cur v) -> (j <= k)%nat ->
  cur (run_n j v) = cur v + 100 * Z.of_nat j.
Proof.
  unfold int_range. intros Hg Hk Hgr Hcr. induction j as [| j IH]; intros Hj.
  - change (run_n 0 v) with v. lia.
  - rewrite run_n_S. specialize (IH ltac:(lia)).
    destruct (run_n_keeps j v) as [Hgj _].
    rewrite run_step_up; rewrite ?Hgj; lia.
Qed.

(** The same below neutral. *)
Lemma ramp_down_arrives (v : Victor) (k j : nat) :
  goal v < 1500 -> goal v = cur v - 100 * Z.of_nat k ->
  int_range (goal v) -> int_range (cur v) -> (j <= k)%nat ->
  cur (run_n j v) = cur v - 100 * Z.of_nat j.
Proof.
  unfold int_range. intros Hg Hk Hgr Hcr. induction j as [| j IH]; intros Hj.
  - change (run_n 0 v) with v. lia.
  - rewrite run_n_S. specialize (IH ltac:(lia)).
    destruct (run_n_keeps j v) as [Hgj _].
    rewrite run_step_down; rewrite ?Hgj; lia.
Qed.

(** C2: the ramp moves away from a goal that lies one step toward neutral.
    On the shooter after [setup()], [set(-40)] and two calls of [run] bring
    [cur] to the goal 1700; [set(-20)] then makes the goal 1600, one step
    below [cur], and the next call of [run] sets [cur] to 1800. *)
Theorem Victor_run_leaves_goal_one_step_back :
  let v1 := run_n 2 (fst (set (-40) shooter_ready board0)) in
  let v2 := fst (set (-20) v1 board0) in
  cur v1 = 1700 /\ goal v1 = 1700
  /\ cur v2 = 1700 /\ goal v2 = 1600 /\ calls_needed v2 = 1
  /\ cur (run_n 1 v2) = 1800
  /\ cur (run_n 2 v2) = 1900.
Proof. vm_compute. repeat split; reflexivity. Qed.

(** ** Victor: a goal that is not a whole number of steps from neutral *)





(** ** Pololu: output lines, and [get] after [set] *)

Lemma Pololu_set_speed (s : Z) (p : Pololu) (b : Board) :
  fst (PololuImpl._set s p b) = PololuImpl.with_speed s p.
Proof.
  unfold PololuImpl._set.
  destruct (s =? 0); [reflexivity |].
  destruct (s <? 0); [reflexivity |].
  destruct (s >? 0); reflexivity.
Qed.

Lemma upd_same (f : Z -> Z) (q v : Z) : upd f q v q = v.
Proof. unfold upd. rewrite Z.eqb_refl. reflexivity. Qed.

Lemma upd_other (f : Z -> Z) (q q' v : Z) : q' <> q -> upd f q v q' = f q'.
Proof.
  intros Hne. unfold upd. destruct (q' =? q) eqn:E; [| reflexivity].
  apply Z.eqb_eq in E. contradiction.
Qed.

Lemma lines_after_writes (p : Pololu) (b : Board) (a c d : Z) :
  inA_pin p <> inB_pin p ->
  lines p (analogWrite (pwm_pin p) d
             (digitalWrite (inB_pin p) c (digitalWrite (inA_pin p) a b)))
  = (a, c, to_int d).
Proof.
  intros Hne. unfold lines, analogWrite, digitalWrite. cbn [digital analog].
  rewrite upd_same, upd_same, upd_other by exact Hne.
  rewrite upd_same. reflexivity.
Qed.

Lemma duty_percent (x : Z) : -100 <= x <= 100 -> 0 <= duty x <= 255.
Proof.
  intros Hx. unfold duty. split.
  - apply Z.div_pos; lia.
  - apply Z.div_le_upper_bound; lia.
Qed.

Lemma Pololu_lines_after__set (p : Pololu) (b : Board) (x : Z) :
  inA_pin p <> inB_pin p -> int_range x ->
  lines p (snd (PololuImpl._set x p b)) =
    (if x =? 0 then (LOW, LOW, 0)
     else if x <? 0 then (HIGH, LOW, to_int (duty x))
     else (LOW, HIGH, to_int (duty x))).
Proof.
  intros Hpins Hx. unfold PololuImpl._set.
  destruct (x =? 0) eqn:E0; cbn [snd].
  - apply lines_after_writes, Hpins.
  - apply Z.eqb_neq in E0. destruct (x <? 0) eqn:E1; cbn [snd].
    + apply Z.ltb_lt in E1.
      rewrite lines_after_writes by exact Hpins.
      rewrite map_duty_backward by (try exact Hx; lia). reflexivity.
    + apply Z.ltb_ge in E1.
      assert (E2 : (x >? 0) = true) by (rewrite Z.gtb_ltb; apply Z.ltb_lt; lia).
      rewrite E2. cbn [snd].
      rewrite lines_after_writes by exact Hpins.
      rewrite map_duty_forward by (try exact Hx; lia). reflexivity.
Qed.

(** [|x| * 255 / 100] fits analogWrite's [int] argument up to
    [|x| = 12850]. *)
Lemma duty_fits_int (x : Z) : Z.abs x <= 12850 -> to_int (duty x) = duty x.
Proof.
  intros Hx. apply to_int_id. unfold int_range, duty.
  assert (0 <= Z.abs x * 255 / 100) by (apply Z.div_pos; lia).
  assert (Z.abs x * 255 / 100 < 32768) by (apply Z.div_lt_upper_bound; lia).
  lia.
Qed.

(** The value [set(x)] hands to [_set] has the size of [x]. *)
Lemma abs_to_int_opp (x : Z) : int_range x -> Z.abs (to_int (- x)) = Z.abs x.
Proof.
  intros Hx. unfold int_range in Hx.
  destruct (Z.eq_dec x (-32768)) as [-> | Hne]; [reflexivity |].
  rewrite to_int_id by (unfold int_range; lia). apply Z.abs_opp.
Qed.

(** C8 as stated fails.  On the feeder, [set(1)] writes the forward
    pattern with duty 2, where 1/100 * 255 = 2.55 rounds to 3; [set(20000)]
    hands analogWrite -14536, the [int] that 51000 wraps to; and on a Pololu
    whose [reversed] flag is set, [set(1)] writes the reverse pattern. *)
Lemma Pololu_set_truncates_duty :
  lines (feeder world0) (snd (set 1 (feeder world0) board0)) = (LOW, HIGH, 2)
  /\ rounded_duty 1 = 3
  /\ lines (feeder world0) (snd (set 20000 (feeder world0) board0))
     = (LOW, HIGH, -14536)
  /\ duty 20000 = 51000
  /\ lines (feeder world0)
           (snd (set 1 (setReversed true (feeder world0)) board0))
     = (HIGH, LOW, 2).
Proof. vm_compute. repeat split; reflexivity. Qed.

(** C8, amended: for every [int] [x], [set(x)] passes on [y = x], or,
    when the [reversed] flag is set (the feeder's is clear), [y = -x]
    computed as an [int] (so [y = -32768] for [x = -32768]).
    [y = 0] drives both direction lines low and PWM 0; [y > 0] drives the
    forward pattern (A low, B high) and [y < 0] the reverse pattern (A high,
    B low), and the PWM value written is |x| * 255 / 100 truncated toward
    zero, not rounded, as analogWrite's [int] argument holds it: that number
    itself whenever |x| <= 12850, within 0..255 for [x] in [-100,100].  So
    the lines show exactly one of stopped, forward, reverse: the pattern of
    the sign of [y]. *)
Theorem Pololu_set_lines (p : Pololu) (b : Board) (x : Z)
  (Hpins : inA_pin p <> inB_pin p) (Hx : int_range x) :
  let y := if p_reversed p then to_int (- x) else x in
  let p' := fst (set x p b) in
  let b' := snd (set x p b) in
  speed p' = y
  /\ lines p b' =
       (if y =? 0 then (LOW, LOW, 0)
        else if y <? 0 then (HIGH, LOW, to_int (duty x))
        else (LOW, HIGH, to_int (duty x)))
  /\ (Z.abs x <= 12850 -> to_int (duty x) = duty x)
  /\ (-100 <= x <= 100 -> 0 <= duty x <= 255)
  /\ pattern (lines p b') = Some (pattern_of_sign y)
  /\ (x = 0 <-> y = 0).
Proof.
  intros y p' b'. subst p' b'.
  assert (Hy : int_range y).
  { unfold y. destruct (p_reversed p); [apply to_int_range | exact Hx]. }
  assert (Hd : duty y = duty x).
  { unfold y, duty. destruct (p_reversed p); [| reflexivity].
    rewrite abs_to_int_opp by exact Hx. reflexivity. }
  assert (Hset : set x p b = PololuImpl._set y p b).
  { unfold set, y. cbn [reversed _set Pololu_SpeedController].
    destruct (p_reversed p); reflexivity. }
  rewrite Hset.
  pose proof (Pololu_lines_after__set p b y Hpins Hy) as Hlines.
  rewrite Hd in Hlines.
  split; [rewrite Pololu_set_speed; reflexivity |].
  split; [exact Hlines |].
  split; [apply duty_fits_int |].
  split; [apply duty_percent |].
  split.
  - rewrite Hlines. unfold pattern_of_sign.
    destruct (y =? 0); [reflexivity |].
    destruct (y <? 0); reflexivity.
  - assert (Ha : Z.abs y = Z.abs x).
    { unfold y. destruct (p_reversed p); [apply abs_to_int_opp, Hx | reflexivity]. }
    lia.
Qed.

Lemma Pololu_set_lines_witness :
  let p := feeder world0 in
  let p' := fst (set (-50) p board0) in
  let b' := snd (set (-50) p board0) in
  speed p' = -50
  /\ lines p b' = (HIGH, LOW, 127)
  /\ (Z.abs (-50) <= 12850 -> to_int (duty (-50)) = duty (-50))
  /\ (-100 <= -50 <= 100 -> 0 <= duty (-50) <= 255)
  /\ pattern (lines p b') = Some Backward
  /\ (-50 = 0 <-> -50 = 0).
Proof.
  assert (H1 : inA_pin (feeder world0) <> inB_pin (feeder world0))
    by (vm_compute; discriminate).
  assert (H2 : int_range (-50)) by (unfold int_range; lia).
  exact (Pololu_set_lines (feeder world0) board0 (-50) H1 H2).
Defined.

Lemma Pololu_get_set (p : Pololu) (b : Board) (s : Z) :
  int_range s -> get (fst (set s p b)) = s.
Proof.
  intros Hs. unfold get, set. cbn [reversed _set _get Pololu_SpeedController].
  destruct (p_reversed p) eqn:Hr; rewrite Pololu_set_speed;
    cbn [PololuImpl.with_speed p_reversed PololuImpl._get speed]; rewrite Hr.
  - apply to_int_opp_opp, Hs.
  - reflexivity.
Qed.

Lemma Victor_get_at_goal (v : Victor) (b : Board) (t : Z) (n : nat) :
  -100 <= t <= 100 ->
  cur (run_n n (fst (set t v b))) = goal (fst (set t v b)) ->
  get (run_n n (fst (set t v b))) = t.
Proof.
  intros Ht Hramp.
  destruct (Victor_set_goal v b t Ht) as (Hg & _ & Hr).
  destruct (run_n_keeps n (fst (set t v b))) as [_ Hrn].
  unfold get. cbn [reversed _get Victor_SpeedController].
  unfold VictorImpl._get. rewrite Hrn, Hr, Hramp, Hg.
  destruct (v_reversed v).
  - replace (1500 - 5 * t) with (1500 + 5 * (- t)) by lia.
    rewrite map_pulse_percent by lia.
    apply to_int_opp_opp. unfold int_range. lia.
  - rewrite map_pulse_percent by lia.
    apply to_int_id. unfold int_range. lia.
Qed.

(** C4 as stated fails for the Victor: on the shooter after [setup()],
    [get()] right after [set(100)] returns 0, the percentage of the output
    still at neutral, not the 100 just commanded. *)
Lemma Victor_get_after_set_is_stale :
  get (fst (set 100 shooter_ready board0)) = 0
  /\ goal (fst (set 100 shooter_ready board0)) = 1000
  /\ cur (fst (set 100 shooter_ready board0)) = 1500.
Proof. vm_compute. repeat split; reflexivity. Qed.

(** C4, amended: for the Pololu, [get()] after [set(s)] returns [s] for
    every [int] [s], with either setting of [reversed].  For the Victor,
    [get()] reports the output [cur], sign-corrected, not the commanded goal:
    it returns the value [t] in [-100,100] passed to [set] once calls of
    [run] have brought [cur] to the goal. *)
Theorem get_after_set (p : Pololu) (v : Victor) (b : Board) (s t : Z) (n : nat)
  (Hs : int_range s) (Ht : -100 <= t <= 100)
  (Hramp : cur (run_n n (fst (set t v b))) = goal (fst (set t v b))) :
  get (fst (set s p b)) = s
  /\ get (run_n n (fst (set t v b))) = t.
Proof.
  split.
  - apply Pololu_get_set, Hs.
  - apply Victor_get_at_goal; assumption.
Qed.

Lemma get_after_set_witness :
  get (fst (set (-100) (setReversed true (feeder world0)) board0)) = -100
  /\ get (run_n 5 (fst (set 100 shooter_ready board0))) = 100.
Proof.
  apply (get_after_set (setReversed true (feeder world0)) shooter_ready board0
                       (-100) 100 5).
  - unfold int_range. lia.
  - lia.
  - vm_compute. reflexivity.
Defined.

(** ** The sequencer: what a call leaves unchanged *)

Lemma on_feeder_eq (m : Pololu -> Board -> Pololu * Board) (w : World) :
  on_feeder m w =
  mkWorld (shooter w) (fst (m (feeder w) (board w))) (autoController w)
          (snd (m (feeder w) (board w))).
Proof. unfold on_feeder. destruct (m (feeder w) (board w)); reflexivity. Qed.

Lemma on_shooter_eq (m : Victor -> Board -> Victor * Board) (w : World) :
  on_shooter m w =
  mkWorld (fst (m (shooter w) (board w))) (feeder w) (autoController w)
          (snd (m (shooter w) (board w))).
Proof. unfold on_shooter. destruct (m (shooter w) (board w)); reflexivity. Qed.

Lemma Victor_set_frame (s : Z) (v : Victor) (b : Board) :
  snd (set s v b) = b /\ v_reversed (fst (set s v b)) = v_reversed v.
Proof.
  unfold set. cbn [reversed _set Victor_SpeedController].
  destruct (v_reversed v) eqn:Hr; cbn [VictorImpl._set fst snd v_reversed]; auto.
Qed.

Lemma Pololu_set_frame (s : Z) (p : Pololu) (b : Board) :
  p_reversed (fst (set s p b)) = p_reversed p
  /\ inA_pin (fst (set s p b)) = inA_pin p
  /\ inB_pin (fst (set s p b)) = inB_pin p
  /\ pwm_pin (fst (set s p b)) = pwm_pin p.
Proof.
  unfold set. cbn [reversed _set Pololu_SpeedController].
  destruct (p_reversed p) eqn:Hr; rewrite Pololu_set_speed;
    cbn [PololuImpl.with_speed p_reversed inA_pin inB_pin pwm_pin]; auto.
Qed.

Lemma on_feeder_set_frame (s : Z) (w : World) :
  autoController (on_feeder (set s) w) = autoController w
  /\ shooter (on_feeder (set s) w) = shooter w
  /\ config (on_feeder (set s) w) = config w.
Proof.
  rewrite on_feeder_eq. unfold config. cbn [autoController shooter feeder].
  destruct (Pololu_set_frame s (feeder w) (board w)) as (-> & -> & -> & ->).
  auto.
Qed.

Lemma on_shooter_set_frame (s : Z) (w : World) :
  autoController (on_shooter (set s) w) = autoController w
  /\ feeder (on_shooter (set s) w) = feeder w
  /\ board (on_shooter (set s) w) = board w
  /\ config (on_shooter (set s) w) = config w.
Proof.
  rewrite on_shooter_eq. unfold config. cbn [autoController shooter feeder board].
  destruct (Victor_set_frame s (shooter w) (board w)) as (-> & ->).
  auto.
Qed.

Lemma with_auto_frame (a : AutoController) (w : World) :
  autoController (with_auto a w) = a
  /\ shooter (with_auto a w) = shooter w
  /\ feeder (with_auto a w) = feeder w
  /\ board (with_auto a w) = board w
  /\ config (with_auto a w) = config w.
Proof. unfold with_auto, config. cbn. auto. Qed.

(** ** The feeder and the shooter under [on()], [off()], [reverse()] *)

Lemma feeder_off_lines (p : Pololu) (b : Board) :
  lines p (snd (off p b)) = (LOW, LOW, 0)
  /\ speed (fst (off p b)) = 0
  /\ get (fst (off p b)) = 0.
Proof.
  unfold get, off, set. cbn [reversed _set _get Pololu_SpeedController].
  change (to_int (- 0)) with 0.
  assert (Hl : lines p (snd (PololuImpl._set 0 p b)) = (LOW, LOW, 0)).
  { unfold PololuImpl._set, lines, analogWrite, digitalWrite, upd.
    cbn [Z.eqb snd digital analog]. rewrite !Z.eqb_refl.
    destruct (inA_pin p =? inB_pin p); reflexivity. }
  destruct (p_reversed p) eqn:Hr; rewrite Pololu_set_speed;
    cbn [PololuImpl.with_speed PololuImpl._get p_reversed speed]; rewrite Hr;
    repeat split; solve [exact Hl | reflexivity].
Qed.

Lemma feeder_on_lines (p : Pololu) (b : Board) :
  inA_pin p <> inB_pin p ->
  lines p (snd (on p b)) = lines_on p /\ get (fst (on p b)) = 100.
Proof.
  intros Hpins. split.
  - unfold on, set, lines_on. cbn [reversed _set Pololu_SpeedController].
    destruct (p_reversed p);
      rewrite Pololu_lines_after__set by (try exact Hpins; vm_compute; split; discriminate);
      reflexivity.
  - apply Pololu_get_set. unfold int_range. lia.
Qed.

Lemma feeder_reverse_lines (p : Pololu) (b : Board) :
  inA_pin p <> inB_pin p ->
  lines p (snd (reverse p b)) = lines_reverse p /\ get (fst (reverse p b)) = -100.
Proof.
  intros Hpins. split.
  - unfold reverse, set, lines_reverse. cbn [reversed _set Pololu_SpeedController].
    destruct (p_reversed p);
      rewrite Pololu_lines_after__set by (try exact Hpins; vm_compute; split; discriminate);
      reflexivity.
  - apply Pololu_get_set. unfold int_range. lia.
Qed.

Lemma shooter_on_goal (v : Victor) (b : Board) : goal (fst (on v b)) = goal_on v.
Proof.
  destruct (Victor_set_goal v b 100 ltac:(lia)) as (Hg & _).
  unfold on, goal_on. rewrite Hg. destruct (v_reversed v); reflexivity.
Qed.

Lemma shooter_off_goal (v : Victor) (b : Board) : goal (fst (off v b)) = 1500.
Proof. apply Victor_off_run. Qed.

Lemma config_same (w w' : World) :
  config w' = config w ->
  (wired w -> wired w')
  /\ lines_on (feeder w') = lines_on (feeder w)
  /\ lines_reverse (feeder w') = lines_reverse (feeder w)
  /\ goal_on (shooter w') = goal_on (shooter w).
Proof.
  unfold config, wired, lines_on, lines_reverse, goal_on. intros E.
  injection E as -> -> -> -> _. auto.
Qed.

Lemma lines_same_pins (p p' : Pololu) (b : Board) :
  inA_pin p' = inA_pin p -> inB_pin p' = inB_pin p -> pwm_pin p' = pwm_pin p ->
  lines p' b = lines p b.
Proof. unfold lines. intros -> -> ->. reflexivity. Qed.

Lemma feeder_lines_on_feeder (s : Z) (w : World) :
  feeder_lines (on_feeder (set s) w)
  = lines (feeder w) (snd (set s (feeder w) (board w))).
Proof.
  unfold feeder_lines. rewrite on_feeder_eq. cbn [feeder board].
  destruct (Pololu_set_frame s (feeder w) (board w)) as (_ & Ha & Hb & Hp).
  apply lines_same_pins; assumption.
Qed.

Lemma world_feeder_on (w : World) :
  wired w ->
  feeder_lines (on_feeder on w) = lines_on (feeder w)
  /\ get (feeder (on_feeder on w)) = 100.
Proof.
  intros Hw. unfold on at 1. rewrite feeder_lines_on_feeder.
  rewrite on_feeder_eq. cbn [feeder].
  apply (feeder_on_lines (feeder w) (board w) Hw).
Qed.

Lemma world_feeder_reverse (w : World) :
  wired w ->
  feeder_lines (on_feeder reverse w) = lines_reverse (feeder w)
  /\ get (feeder (on_feeder reverse w)) = -100.
Proof.
  intros Hw. unfold reverse at 1. rewrite feeder_lines_on_feeder.
  rewrite on_feeder_eq. cbn [feeder].
  apply (feeder_reverse_lines (feeder w) (board w) Hw).
Qed.

Lemma world_feeder_off (w : World) :
  feeder_lines (on_feeder off w) = (LOW, LOW, 0)
  /\ speed (feeder (on_feeder off w)) = 0
  /\ get (feeder (on_feeder off w)) = 0.
Proof.
  unfold off at 1. rewrite feeder_lines_on_feeder.
  rewrite on_feeder_eq. cbn [feeder].
  apply (feeder_off_lines (feeder w) (board w)).
Qed.

Lemma world_shooter_set (s : Z) (w : World) :
  feeder_lines (on_shooter (set s) w) = feeder_lines w
  /\ feeder (on_shooter (set s) w) = feeder w
  /\ goal (shooter (on_shooter (set s) w)) = goal (fst (set s (shooter w) (board w))).
Proof.
  destruct (on_shooter_set_frame s w) as (_ & Hf & Hb & _).
  unfold feeder_lines. rewrite Hf, Hb.
  rewrite on_shooter_eq. cbn [shooter]. auto.
Qed.

(** ** The sequencer: one call of [run] by state and elapsed time *)

Section RunCases.
Variables (now : Z) (w : World).
Let a : AutoController := autoController w.

Lemma run_idle : state a = Idle -> Auto.run now w = w.
Proof. unfold Auto.run. fold a. intros ->. reflexivity. Qed.

Lemma run_other :
  state a <> Idle -> state a <> Loading -> state a <> Firing -> Auto.run now w = w.
Proof.
  unfold Auto.run, Idle, Loading, Firing. fold a. intros H0 H1 H2.
  apply Z.eqb_neq in H0, H1, H2. rewrite H0, H1, H2. reflexivity.
Qed.

Lemma run_loading_retract :
  state a = Loading -> Auto.elapsed now (start_load_time a) < Auto.RETRACT_TIME ->
  Auto.run now w = on_feeder reverse w.
Proof.
  unfold Auto.run, Auto.runLoad. fold a. intros -> Ht.
  apply Z.ltb_lt in Ht. cbn [Loading Z.eqb Pos.eqb]. rewrite Ht. reflexivity.
Qed.

Lemma run_loading_extend :
  state a = Loading ->
  Auto.RETRACT_TIME <= Auto.elapsed now (start_load_time a)
    < Auto.RETRACT_TIME + Auto.LOAD_TIME ->
  Auto.run now w = on_feeder on w.
Proof.
  unfold Auto.run, Auto.runLoad. fold a. intros -> [Hlo Hhi].
  apply Z.ltb_ge in Hlo. cbn [Loading Z.eqb Pos.eqb]. rewrite Hlo.
  change (to_ulong (Auto.RETRACT_TIME + Auto.LOAD_TIME))
    with (Auto.RETRACT_TIME + Auto.LOAD_TIME).
  apply Z.ltb_lt in Hhi. rewrite Hhi. reflexivity.
Qed.

Lemma run_loading_done :
  state a = Loading ->
  Auto.RETRACT_TIME + Auto.LOAD_TIME <= Auto.elapsed now (start_load_time a) ->
  Auto.run now w =
  with_auto (mkAuto 0 0 (start_fire_time a) true) (on_shooter on (on_feeder off w)).
Proof.
  unfold Auto.run, Auto.runLoad. fold a. intros -> Ht.
  assert (Hlo : Auto.RETRACT_TIME <= Auto.elapsed now (start_load_time a))
    by (unfold Auto.RETRACT_TIME, Auto.LOAD_TIME in *; lia).
  apply Z.ltb_ge in Hlo. cbn [Loading Z.eqb Pos.eqb]. rewrite Hlo.
  change (to_ulong (Auto.RETRACT_TIME + Auto.LOAD_TIME))
    with (Auto.RETRACT_TIME + Auto.LOAD_TIME).
  apply Z.ltb_ge in Ht. rewrite Ht.
  destruct (on_shooter_set_frame 100 (on_feeder off w)) as (Ha & _).
  destruct (on_feeder_set_frame 0 w) as (Ha' & _).
  fold (@on Victor _) in Ha. fold (@off Pololu _) in Ha'.
  cbv zeta. rewrite Ha, Ha'. reflexivity.
Qed.

Lemma run_firing_on :
  state a = Firing -> Auto.elapsed now (start_fire_time a) < Auto.QUICKFIRE_TIME ->
  Auto.run now w = on_feeder on (on_shooter on w).
Proof.
  unfold Auto.run, Auto.runFire. fold a. intros -> Ht.
  apply Z.ltb_lt in Ht. cbn [Firing Z.eqb Pos.eqb]. rewrite Ht. reflexivity.
Qed.

Lemma run_firing_done :
  state a = Firing -> Auto.QUICKFIRE_TIME <= Auto.elapsed now (start_fire_time a) ->
  Auto.run now w =
  with_auto (mkAuto 0 (start_load_time a) 0 false) (on_shooter off (on_feeder off w)).
Proof.
  unfold Auto.run, Auto.runFire. fold a. intros -> Ht.
  apply Z.ltb_ge in Ht. cbn [Firing Z.eqb Pos.eqb]. rewrite Ht.
  destruct (on_shooter_set_frame 0 (on_feeder off w)) as (Ha & _).
  destruct (on_feeder_set_frame 0 w) as (Ha' & _).
  fold (@off Victor _) in Ha. fold (@off Pololu _) in Ha'.
  cbv zeta. rewrite Ha, Ha'. reflexivity.
Qed.

End RunCases.

(** ** The sequencer: wiring is never rewritten *)

Lemma config_on_feeder (s : Z) (w : World) : config (on_feeder (set s) w) = config w.
Proof. apply on_feeder_set_frame. Qed.

Lemma config_on_shooter (s : Z) (w : World) : config (on_shooter (set s) w) = config w.
Proof. apply on_shooter_set_frame. Qed.

Lemma config_with_auto (a : AutoController) (w : World) : config (with_auto a w) = config w.
Proof. reflexivity. Qed.

Lemma config_run (now : Z) (w : World) : config (Auto.run now w) = config w.
Proof.
  unfold Auto.run, Auto.runLoad, Auto.runFire, on, off, reverse.
  repeat match goal with
         | |- context [if ?c then _ else _] => destruct c
         end;
    cbv zeta;
    rewrite ?config_with_auto, ?config_on_feeder, ?config_on_shooter, ?config_on_feeder;
    reflexivity.
Qed.

Lemma config_ticks (ts : list Z) (w : World) : config (ticks ts w) = config w.
Proof.
  revert w. induction ts as [| t ts IH]; intros w; [reflexivity |].
  change (ticks (t :: ts) w) with (ticks ts (Auto.run t w)).
  rewrite IH. apply config_run.
Qed.

Lemma ticks_while_loading (ts : list Z) (w : World) :
  state (autoController w) = Loading ->
  Forall (fun t => Auto.elapsed t (start_load_time (autoController w))
                   < Auto.RETRACT_TIME + Auto.LOAD_TIME) ts ->
  autoController (ticks ts w) = autoController w.
Proof.
  revert w. induction ts as [| t ts IH]; intros w Hst Hts; [reflexivity |].
  change (ticks (t :: ts) w) with (ticks ts (Auto.run t w)).
  inversion Hts as [| ? ? Ht Hts']; subst.
  assert (Ha : autoController (Auto.run t w) = autoController w).
  { destruct (Z_lt_ge_dec (Auto.elapsed t (start_load_time (autoController w)))
                          Auto.RETRACT_TIME) as [Hlt | Hge].
    - rewrite run_loading_retract by assumption. apply (on_feeder_set_frame (-100)).
    - rewrite run_loading_extend by (try assumption; lia).
      apply (on_feeder_set_frame 100). }
  rewrite IH; rewrite Ha; auto.
Qed.

Lemma ticks_while_firing (ts : list Z) (w : World) :
  state (autoController w) = Firing ->
  Forall (fun t => Auto.elapsed t (start_fire_time (autoController w))
                   < Auto.QUICKFIRE_TIME) ts ->
  autoController (ticks ts w) = autoController w.
Proof.
  revert w. induction ts as [| t ts IH]; intros w Hst Hts; [reflexivity |].
  change (ticks (t :: ts) w) with (ticks ts (Auto.run t w)).
  inversion Hts as [| ? ? Ht Hts']; subst.
  assert (Ha : autoController (Auto.run t w) = autoController w).
  { rewrite run_firing_on by assumption.
    destruct (on_feeder_set_frame 100 (on_shooter on w)) as (Ha & _).
    destruct (on_shooter_set_frame 100 w) as (Ha' & _).
    fold (@on Pololu _) in Ha. fold (@on Victor _) in Ha'. congruence. }
  rewrite IH; rewrite Ha; auto.
Qed.

(** ** cancel(), and the exclusion of Loading and Firing *)

Lemma cancel_effect (w : World) :
  autoController (Auto.cancel w) = mkAuto 0 0 0 false
  /\ feeder_lines (Auto.cancel w) = (LOW, LOW, 0)
  /\ speed (feeder (Auto.cancel w)) = 0
  /\ get (feeder (Auto.cancel w)) = 0
  /\ goal (shooter (Auto.cancel w)) = 1500
  /\ cur (VictorImpl.run (shooter (Auto.cancel w))) = 1500.
Proof.
  unfold Auto.cancel, Auto.reset.
  set (w1 := on_feeder off w). set (w2 := on_shooter off w1).
  destruct (with_auto_frame (mkAuto 0 0 0 false) w2) as (Ha & Hs & Hf & Hb & _).
  unfold feeder_lines. rewrite Ha, Hs, Hf, Hb.
  destruct (world_shooter_set 0 w1) as (Hl & Hf2 & Hg).
  fold (@off Victor _) in Hl, Hf2, Hg. fold w2 in Hl, Hf2, Hg.
  unfold feeder_lines in Hl. rewrite Hl, Hf2.
  destruct (world_feeder_off w) as (Hl1 & Hs1 & Hg1). fold w1 in Hl1, Hs1, Hg1.
  unfold feeder_lines in Hl1.
  assert (Hsh : shooter w2 = fst (off (shooter w1) (board w1))).
  { unfold w2. rewrite on_shooter_eq. reflexivity. }
  destruct (Victor_off_run (shooter w1) (board w1)) as (Hgo & Hcu).
  rewrite Hsh. auto 10.
Qed.

Lemma not_loading_and_firing (w : World) : loading_active w && firing_active w = false.
Proof.
  unfold loading_active, firing_active, Loading, Firing.
  destruct (state (autoController w) =? 1) eqn:E; [| reflexivity].
  apply Z.eqb_eq in E. rewrite E. reflexivity.
Qed.

Lemma do_commands_snoc (l : list Command) (c : Command) (w : World) :
  do_commands (l ++ [c]) w = do_command c (do_commands l w).
Proof. unfold do_commands. rewrite fold_left_app. reflexivity. Qed.

Lemma state_after_command (c : Command) (w : World) :
  state (autoController (do_command c w)) =
  match c with
  | CmdLoad _ => Loading
  | CmdFire _ => Firing
  | CmdCancel => Idle
  end.
Proof.
  destruct c as [now | now |]; reflexivity.
Qed.

Lemma state_after_commands (l : list Command) (w : World) :
  l <> [] ->
  state (autoController (do_commands l w)) = Idle
  \/ state (autoController (do_commands l w)) = Loading
  \/ state (autoController (do_commands l w)) = Firing.
Proof.
  intros Hne. destruct (exists_last Hne) as (l' & c & ->).
  rewrite do_commands_snoc, state_after_command.
  destruct c; auto.
Qed.

(** C5: [cancel()], called in any state, leaves the sequencer Idle with
    both timers zero and [loaded] false, the feeder's lines low with duty 0
    and the shooter's goal at neutral (so its next [run] writes 1500); and
    after every prefix of any sequence of load/fire/cancel calls the
    sequencer is not both Loading and Firing: after a non-empty prefix its
    state is one of Idle, Loading, Firing. *)
Theorem cancel_from_any_state (w : World) (cs : list Command) (n : nat) :
  state (autoController (Auto.cancel w)) = Idle
  /\ start_load_time (autoController (Auto.cancel w)) = 0
  /\ start_fire_time (autoController (Auto.cancel w)) = 0
  /\ loaded (autoController (Auto.cancel w)) = false
  /\ feeder_lines (Auto.cancel w) = (LOW, LOW, 0)
  /\ get (feeder (Auto.cancel w)) = 0
  /\ goal (shooter (Auto.cancel w)) = 1500
  /\ cur (VictorImpl.run (shooter (Auto.cancel w))) = 1500
  /\ loading_active (do_commands (firstn n cs) w)
       && firing_active (do_commands (firstn n cs) w) = false
  /\ (firstn n cs <> [] ->
      state (autoController (do_commands (firstn n cs) w)) = Idle
      \/ state (autoController (do_commands (firstn n cs) w)) = Loading
      \/ state (autoController (do_commands (firstn n cs) w)) = Firing).
Proof.
  destruct (cancel_effect w) as (Ha & Hl & _ & Hg & Hgo & Hcu).
  rewrite Ha. cbn [state start_load_time start_fire_time loaded].
  repeat (split; [first [reflexivity | assumption] |]).
  split; [apply not_loading_and_firing | apply state_after_commands].
Qed.

Lemma cancel_from_any_state_witness :
  let w := Auto.fire 10 (setup world0) in
  let cs := [CmdLoad 20; CmdFire 30; CmdCancel] in
  state (autoController (Auto.cancel w)) = Idle
  /\ start_load_time (autoController (Auto.cancel w)) = 0
  /\ start_fire_time (autoController (Auto.cancel w)) = 0
  /\ loaded (autoController (Auto.cancel w)) = false
  /\ feeder_lines (Auto.cancel w) = (LOW, LOW, 0)
  /\ get (feeder (Auto.cancel w)) = 0
  /\ goal (shooter (Auto.cancel w)) = 1500
  /\ cur (VictorImpl.run (shooter (Auto.cancel w))) = 1500
  /\ loading_active (do_commands (firstn 2 cs) w)
       && firing_active (do_commands (firstn 2 cs) w) = false
  /\ (firstn 2 cs <> [] ->
      state (autoController (do_commands (firstn 2 cs) w)) = Idle
      \/ state (autoController (do_commands (firstn 2 cs) w)) = Loading
      \/ state (autoController (do_commands (firstn 2 cs) w)) = Firing).
Proof.
  apply (cancel_from_any_state (Auto.fire 10 (setup world0))
           [CmdLoad 20; CmdFire 30; CmdCancel] 2).
Defined.

(** ** The phases of fire() and load() *)

Lemma drive_both_on (w : World) :
  wired w ->
  autoController (on_feeder on (on_shooter on w)) = autoController w
  /\ goal (shooter (on_feeder on (on_shooter on w))) = goal_on (shooter w)
  /\ feeder_lines (on_feeder on (on_shooter on w)) = lines_on (feeder w)
  /\ get (feeder (on_feeder on (on_shooter on w))) = 100.
Proof.
  intros Hw. set (w1 := on_shooter on w).
  destruct (on_shooter_set_frame 100 w) as (Ha & Hf & _ & Hc).
  destruct (world_shooter_set 100 w) as (_ & _ & Hg).
  fold (@on Victor _) in Ha, Hf, Hc, Hg. fold w1 in Ha, Hf, Hc, Hg.
  destruct (on_feeder_set_frame 100 w1) as (Ha1 & Hs1 & _).
  fold (@on Pololu _) in Ha1, Hs1.
  destruct (config_same w w1 Hc) as (Hw1 & Hlo & _).
  destruct (world_feeder_on w1 (Hw1 Hw)) as (Hl & Hget).
  rewrite Ha1, Hs1, Hl, Hget, Hg, Hlo, Ha.
  rewrite shooter_on_goal. auto.
Qed.

Lemma stop_both (w : World) :
  autoController (on_shooter off (on_feeder off w)) = autoController w
  /\ goal (shooter (on_shooter off (on_feeder off w))) = 1500
  /\ feeder_lines (on_shooter off (on_feeder off w)) = (LOW, LOW, 0)
  /\ get (feeder (on_shooter off (on_feeder off w))) = 0.
Proof.
  set (w1 := on_feeder off w).
  destruct (on_feeder_set_frame 0 w) as (Ha & _).
  destruct (world_feeder_off w) as (Hl & _ & Hget).
  fold (@off Pololu _) in Ha. fold w1 in Ha, Hl, Hget.
  destruct (on_shooter_set_frame 0 w1) as (Ha1 & _).
  destruct (world_shooter_set 0 w1) as (Hl1 & Hf1 & Hg1).
  fold (@off Victor _) in Ha1, Hl1, Hf1, Hg1.
  rewrite Ha1, Hl1, Hf1, Hg1, Ha, Hl, Hget, shooter_off_goal. auto.
Qed.

Lemma stop_feeder_start_shooter (w : World) :
  autoController (on_shooter on (on_feeder off w)) = autoController w
  /\ goal (shooter (on_shooter on (on_feeder off w))) = goal_on (shooter w)
  /\ feeder_lines (on_shooter on (on_feeder off w)) = (LOW, LOW, 0)
  /\ get (feeder (on_shooter on (on_feeder off w))) = 0.
Proof.
  set (w1 := on_feeder off w).
  destruct (on_feeder_set_frame 0 w) as (Ha & Hs & _).
  destruct (world_feeder_off w) as (Hl & _ & Hget).
  fold (@off Pololu _) in Ha, Hs. fold w1 in Ha, Hs, Hl, Hget.
  destruct (on_shooter_set_frame 100 w1) as (Ha1 & _).
  destruct (world_shooter_set 100 w1) as (Hl1 & Hf1 & Hg1).
  fold (@on Victor _) in Ha1, Hl1, Hf1, Hg1.
  rewrite Ha1, Hl1, Hf1, Hg1, Ha, Hl, Hget, shooter_on_goal, Hs. auto.
Qed.

(** C6: [fire()] from any state makes the state Firing and records the
    clock, whatever [loaded] is; after any ticks with less than
    QUICKFIRE_TIME elapsed, a tick still under QUICKFIRE_TIME drives shooter
    and feeder [on()] and stays Firing, and a tick at or past QUICKFIRE_TIME
    turns both off, clears [loaded] and returns to Idle. *)
Theorem fire_phase (w : World) (t0 : Z) (ts : list Z) (t : Z)
  (Hw : wired w)
  (Hts : Forall (fun ti => Auto.elapsed ti t0 < Auto.QUICKFIRE_TIME) ts) :
  let w1 := Auto.fire t0 w in
  let w2 := Auto.run t (ticks ts w1) in
  (state (autoController w1) = Firing
   /\ start_fire_time (autoController w1) = t0
   /\ loaded (autoController w1) = loaded (autoController w))
  /\ (Auto.elapsed t t0 < Auto.QUICKFIRE_TIME ->
      state (autoController w2) = Firing
      /\ goal (shooter w2) = goal_on (shooter w)
      /\ feeder_lines w2 = lines_on (feeder w)
      /\ get (feeder w2) = 100)
  /\ (Auto.QUICKFIRE_TIME <= Auto.elapsed t t0 ->
      state (autoController w2) = Idle
      /\ loaded (autoController w2) = false
      /\ start_fire_time (autoController w2) = 0
      /\ goal (shooter w2) = 1500
      /\ feeder_lines w2 = (LOW, LOW, 0)
      /\ get (feeder w2) = 0).
Proof.
  intros w1 w2.
  assert (Ha1 : autoController w1 =
                mkAuto 2 (start_load_time (autoController w)) t0
                       (loaded (autoController w))) by reflexivity.
  split; [rewrite Ha1; repeat split; reflexivity |].
  set (wm := ticks ts w1) in *.
  assert (Ham : autoController wm = autoController w1).
  { apply ticks_while_firing; rewrite Ha1; [reflexivity | exact Hts]. }
  assert (Hcm : config wm = config w).
  { unfold wm. rewrite config_ticks. reflexivity. }
  destruct (config_same w wm Hcm) as (Hwm & Hlo & _ & Hgo).
  split; intros Ht.
  - unfold w2. rewrite run_firing_on by (rewrite Ham, Ha1; first [reflexivity | exact Ht]).
    destruct (drive_both_on wm (Hwm Hw)) as (Ha & Hg & Hl & Hget).
    rewrite Ha, Hg, Hl, Hget, Ham, Ha1, Hlo, Hgo. repeat split; reflexivity.
  - unfold w2. rewrite run_firing_done by (rewrite Ham, Ha1; first [reflexivity | exact Ht]).
    set (ws := on_shooter off (on_feeder off wm)).
    destruct (stop_both wm) as (_ & Hg & Hl & Hget). fold ws in Hg, Hl, Hget.
    destruct (with_auto_frame (mkAuto 0 (start_load_time (autoController wm)) 0 false) ws)
      as (Ha & Hs & Hf & Hb & _).
    unfold feeder_lines in *. rewrite Ha, Hs, Hf, Hb, Hg, Hl, Hget.
    repeat split; reflexivity.
Qed.

Lemma fire_phase_witness :
  let w1 := Auto.fire 0 (setup world0) in
  let w2 := Auto.run 350 (ticks [100; 200] w1) in
  (state (autoController w1) = Firing
   /\ start_fire_time (autoController w1) = 0
   /\ loaded (autoController w1) = loaded (autoController (setup world0)))
  /\ (Auto.elapsed 350 0 < Auto.QUICKFIRE_TIME ->
      state (autoController w2) = Firing
      /\ goal (shooter w2) = goal_on (shooter (setup world0))
      /\ feeder_lines w2 = lines_on (feeder (setup world0))
      /\ get (feeder w2) = 100)
  /\ (Auto.QUICKFIRE_TIME <= Auto.elapsed 350 0 ->
      state (autoController w2) = Idle
      /\ loaded (autoController w2) = false
      /\ start_fire_time (autoController w2) = 0
      /\ goal (shooter w2) = 1500
      /\ feeder_lines w2 = (LOW, LOW, 0)
      /\ get (feeder w2) = 0).
Proof.
  apply (fire_phase (setup world0) 0 [100; 200] 350).
  - vm_compute. discriminate.
  - repeat constructor.
Defined.

(** C7: [load()] from any state (Loading included, which restarts the
    timer) makes the state Loading, records the clock and clears [loaded];
    after any ticks before RETRACT_TIME + LOAD_TIME, a tick drives the feeder
    in reverse while elapsed < RETRACT_TIME, forward while RETRACT_TIME <=
    elapsed < RETRACT_TIME + LOAD_TIME, and from RETRACT_TIME + LOAD_TIME on
    stops the feeder, turns the shooter on, sets [loaded] and returns to
    Idle. *)
Theorem load_phase (w : World) (t0 : Z) (ts : list Z) (t : Z)
  (Hw : wired w)
  (Hts : Forall (fun ti => Auto.elapsed ti t0
                           < Auto.RETRACT_TIME + Auto.LOAD_TIME) ts) :
  let w1 := Auto.load t0 w in
  let w2 := Auto.run t (ticks ts w1) in
  (state (autoController w1) = Loading
   /\ start_load_time (autoController w1) = t0
   /\ loaded (autoController w1) = false)
  /\ (Auto.elapsed t t0 < Auto.RETRACT_TIME ->
      state (autoController w2) = Loading
      /\ loaded (autoController w2) = false
      /\ feeder_lines w2 = lines_reverse (feeder w)
      /\ get (feeder w2) = -100)
  /\ (Auto.RETRACT_TIME <= Auto.elapsed t t0
        < Auto.RETRACT_TIME + Auto.LOAD_TIME ->
      state (autoController w2) = Loading
      /\ loaded (autoController w2) = false
      /\ feeder_lines w2 = lines_on (feeder w)
      /\ get (feeder w2) = 100)
  /\ (Auto.RETRACT_TIME + Auto.LOAD_TIME <= Auto.elapsed t t0 ->
      state (autoController w2) = Idle
      /\ loaded (autoController w2) = true
      /\ start_load_time (autoController w2) = 0
      /\ feeder_lines w2 = (LOW, LOW, 0)
      /\ get (feeder w2) = 0
      /\ goal (shooter w2) = goal_on (shooter w)).
Proof.
  intros w1 w2.
  assert (Ha1 : autoController w1 =
                mkAuto 1 t0 (start_fire_time (autoController w)) false)
    by reflexivity.
  split; [rewrite Ha1; repeat split; reflexivity |].
  set (wm := ticks ts w1) in *.
  assert (Ham : autoController wm = autoController w1).
  { apply ticks_while_loading; rewrite Ha1; [reflexivity | exact Hts]. }
  assert (Hcm : config wm = config w).
  { unfold wm. rewrite config_ticks. reflexivity. }
  destruct (config_same w wm Hcm) as (Hwm & Hlo & Hlr & Hgo).
  split; [| split]; intros Ht.
  - unfold w2.
    rewrite run_loading_retract by (rewrite Ham, Ha1; first [reflexivity | exact Ht]).
    destruct (on_feeder_set_frame (-100) wm) as (Ha & _).
    destruct (world_feeder_reverse wm (Hwm Hw)) as (Hl & Hget).
    fold (@reverse Pololu _) in Ha.
    rewrite Ha, Hl, Hget, Ham, Ha1, Hlr. repeat split; reflexivity.
  - unfold w2.
    rewrite run_loading_extend by (rewrite Ham, Ha1; first [reflexivity | exact Ht]).
    destruct (on_feeder_set_frame 100 wm) as (Ha & _).
    destruct (world_feeder_on wm (Hwm Hw)) as (Hl & Hget).
    fold (@on Pololu _) in Ha.
    rewrite Ha, Hl, Hget, Ham, Ha1, Hlo. repeat split; reflexivity.
  - unfold w2.
    rewrite run_loading_done by (rewrite Ham, Ha1; first [reflexivity | exact Ht]).
    set (ws := on_shooter on (on_feeder off wm)).
    destruct (stop_feeder_start_shooter wm) as (_ & Hg & Hl & Hget).
    fold ws in Hg, Hl, Hget.
    destruct (with_auto_frame
                (mkAuto 0 0 (start_fire_time (autoController wm)) true) ws)
      as (Ha & Hs & Hf & Hb & _).
    unfold feeder_lines in *. rewrite Ha, Hs, Hf, Hb, Hg, Hl, Hget, Hgo.
    repeat split; reflexivity.
Qed.

Lemma load_phase_witness :
  let w := Auto.load 40 (setup world0) in
  let w1 := Auto.load 0 w in
  let w2 := Auto.run 1700 (ticks [500; 1200] w1) in
  (state (autoController w1) = Loading
   /\ start_load_time (autoController w1) = 0
   /\ loaded (autoController w1) = false)
  /\ (Auto.elapsed 1700 0 < Auto.RETRACT_TIME ->
      state (autoController w2) = Loading
      /\ loaded (autoController w2) = false
      /\ feeder_lines w2 = lines_reverse (feeder w)
      /\ get (feeder w2) = -100)
  /\ (Auto.RETRACT_TIME <= Auto.elapsed 1700 0
        < Auto.RETRACT_TIME + Auto.LOAD_TIME ->
      state (autoController w2) = Loading
      /\ loaded (autoController w2) = false
      /\ feeder_lines w2 = lines_on (feeder w)
      /\ get (feeder w2) = 100)
  /\ (Auto.RETRACT_TIME + Auto.LOAD_TIME <= Auto.elapsed 1700 0 ->
      state (autoController w2) = Idle
      /\ loaded (autoController w2) = true
      /\ start_load_time (autoController w2) = 0
      /\ feeder_lines w2 = (LOW, LOW, 0)
      /\ get (feeder w2) = 0
      /\ goal (shooter w2) = goal_on (shooter w)).
Proof.
  apply (load_phase (Auto.load 40 (setup world0)) 0 [500; 1200] 1700).
  - vm_compute. discriminate.
  - repeat constructor.
Defined.

(** ** The [loaded] flag over any sequence of calls *)

Lemma do_calls_snoc (l : list Call) (c : Call) (w : World) :
  do_calls (l ++ [c]) w = do_call c (do_calls l w).
Proof. unfold do_calls. rewrite fold_left_app. reflexivity. Qed.

Lemma run_auto_cases (now : Z) (w : World) :
  autoController (Auto.run now w) = autoController w
  \/ (state (autoController w) = Loading
      /\ Auto.RETRACT_TIME + Auto.LOAD_TIME
         <= Auto.elapsed now (start_load_time (autoController w))
      /\ autoController (Auto.run now w)
         = mkAuto 0 0 (start_fire_time (autoController w)) true)
  \/ (state (autoController w) = Firing
      /\ Auto.QUICKFIRE_TIME <= Auto.elapsed now (start_fire_time (autoController w))
      /\ autoController (Auto.run now w)
         = mkAuto 0 (start_load_time (autoController w)) 0 false).
Proof.
  destruct (Z.eq_dec (state (autoController w)) Idle) as [H0 | H0].
  { left. rewrite run_idle by exact H0. reflexivity. }
  destruct (Z.eq_dec (state (autoController w)) Loading) as [H1 | H1].
  { destruct (Z_lt_ge_dec (Auto.elapsed now (start_load_time (autoController w)))
                          Auto.RETRACT_TIME) as [Hlt | Hge].
    { left. rewrite run_loading_retract by assumption.
      apply (on_feeder_set_frame (-100)). }
    destruct (Z_lt_ge_dec (Auto.elapsed now (start_load_time (autoController w)))
                          (Auto.RETRACT_TIME + Auto.LOAD_TIME)) as [Hlt | Hge'].
    { left. rewrite run_loading_extend by (try assumption; lia).
      apply (on_feeder_set_frame 100). }
    right. left. split; [exact H1 |]. split; [lia |].
    rewrite run_loading_done by (try assumption; lia).
    apply with_auto_frame. }
  destruct (Z.eq_dec (state (autoController w)) Firing) as [H2 | H2].
  { destruct (Z_lt_ge_dec (Auto.elapsed now (start_fire_time (autoController w)))
                          Auto.QUICKFIRE_TIME) as [Hlt | Hge].
    { left. rewrite run_firing_on by assumption.
      destruct (on_feeder_set_frame 100 (on_shooter on w)) as (Ha & _).
      destruct (on_shooter_set_frame 100 w) as (Ha' & _).
      fold (@on Pololu _) in Ha. fold (@on Victor _) in Ha'. congruence. }
    right. right. split; [exact H2 |]. split; [lia |].
    rewrite run_firing_done by (try assumption; lia).
    apply with_auto_frame. }
  left. rewrite run_other by assumption. reflexivity.
Qed.

Lemma loaded_history (w0 : World) (cs : list Call) :
  loaded (autoController w0) = false ->
  loaded (autoController (do_calls cs w0)) = true ->
  (state (autoController (do_calls cs w0)) = Idle
   \/ state (autoController (do_calls cs w0)) = Firing)
  /\ exists (pre : list Call) (t : Z) (post : list Call),
       cs = pre ++ Tick t :: post
       /\ state (autoController (do_calls pre w0)) = Loading
       /\ Auto.RETRACT_TIME + Auto.LOAD_TIME
          <= Auto.elapsed t (start_load_time (autoController (do_calls pre w0)))
       /\ forallb keeps_loaded post = true.
Proof.
  intros Hinit. induction cs as [| c cs IH] using rev_ind; intros Hl.
  - simpl in Hl. congruence.
  - rewrite do_calls_snoc in *. set (w := do_calls cs w0) in *.
    assert (Hkeep : forall c', keeps_loaded c' = true ->
              autoController (do_call c' w) = autoController w
              \/ (loaded (autoController (do_call c' w)) = loaded (autoController w)
                  /\ state (autoController (do_call c' w)) = Firing) ->
              c = c' ->
              (state (autoController (do_call c w)) = Idle
               \/ state (autoController (do_call c w)) = Firing)
              /\ exists pre t post,
                   cs ++ [c] = pre ++ Tick t :: post
                   /\ state (autoController (do_calls pre w0)) = Loading
                   /\ Auto.RETRACT_TIME + Auto.LOAD_TIME
                      <= Auto.elapsed t (start_load_time (autoController (do_calls pre w0)))
                   /\ forallb keeps_loaded post = true).
    { intros c' Hk Hsame ->.
      assert (Hlw : loaded (autoController w) = true).
      { destruct Hsame as [E | [E _]]; rewrite E in Hl; exact Hl. }
      destruct (IH Hlw) as (Hst & pre & t & post & Hcs & Hpre & Hel & Hpost).
      split.
      - destruct Hsame as [E | [_ E]]; [rewrite E; exact Hst | right; exact E].
      - exists pre, t, (post ++ [c']). repeat split; try assumption.
        + rewrite Hcs, <- app_assoc. reflexivity.
        + rewrite forallb_app, Hpost. simpl. rewrite Hk. reflexivity. }
    destruct c as [[now | now |] | now].
    + exfalso. simpl in Hl. discriminate.
    + apply (Hkeep (Cmd (CmdFire now))); [reflexivity | | reflexivity].
      right. split; reflexivity.
    + exfalso. destruct (cancel_effect w) as (Ha & _).
      change (do_call (Cmd CmdCancel) w) with (Auto.cancel w) in Hl.
      rewrite Ha in Hl. discriminate.
    + destruct (run_auto_cases now w) as [E | [(Hst & Hel & E) | (_ & _ & E)]].
      * apply (Hkeep (Tick now)); [reflexivity | left; exact E | reflexivity].
      * change (do_call (Tick now) w) with (Auto.run now w).
        split; [left; rewrite E; reflexivity |].
        exists cs, now, []. repeat split; assumption.
      * exfalso. change (do_call (Tick now) w) with (Auto.run now w) in Hl.
        rewrite E in Hl. discriminate.
Qed.

(** C3 as stated fails: after [load()] at 0, a tick at 1650 and [fire()]
    at 1700 the flag [loaded] is set while the state is Firing (and it stays
    so on the tick at 1800, inside the firing phase). *)
Lemma loaded_while_firing :
  loaded (autoController
            (do_calls [Cmd (CmdLoad 0); Tick 1650; Cmd (CmdFire 1700)] (setup world0)))
  = true
  /\ state (autoController
            (do_calls [Cmd (CmdLoad 0); Tick 1650; Cmd (CmdFire 1700)] (setup world0)))
     = Firing
  /\ loaded (autoController
            (do_calls [Cmd (CmdLoad 0); Tick 1650; Cmd (CmdFire 1700); Tick 1800]
                      (setup world0)))
     = true.
Proof. vm_compute. repeat split; reflexivity. Qed.

(** C3, amended: starting with [loaded] clear, after any sequence of
    load()/fire()/cancel()/tick() calls [loaded] is set only when the state
    is Idle or Firing (never Loading), and only if a tick completed a
    Loading phase and no cancel() or load() was called since. *)
Theorem loaded_only_after_loading (w0 : World) (cs : list Call)
  (Hinit : loaded (autoController w0) = false)
  (Hloaded : loaded (autoController (do_calls cs w0)) = true) :
  (state (autoController (do_calls cs w0)) = Idle
   \/ state (autoController (do_calls cs w0)) = Firing)
  /\ state (autoController (do_calls cs w0)) <> Loading
  /\ exists (pre : list Call) (t : Z) (post : list Call),
       cs = pre ++ Tick t :: post
       /\ state (autoController (do_calls pre w0)) = Loading
       /\ Auto.RETRACT_TIME + Auto.LOAD_TIME
          <= Auto.elapsed t (start_load_time (autoController (do_calls pre w0)))
       /\ forallb keeps_loaded post = true.
Proof.
  destruct (loaded_history w0 cs Hinit Hloaded) as (Hst & Hex).
  split; [exact Hst |]. split; [| exact Hex].
  unfold Idle, Loading, Firing in *. lia.
Qed.

Lemma loaded_only_after_loading_witness :
  let cs := [Cmd (CmdLoad 0); Tick 500; Tick 1700; Cmd (CmdFire 2000); Tick 2100] in
  (state (autoController (do_calls cs (setup world0))) = Idle
   \/ state (autoController (do_calls cs (setup world0))) = Firing)
  /\ state (autoController (do_calls cs (setup world0))) <> Loading
  /\ exists (pre : list Call) (t : Z) (post : list Call),
       cs = pre ++ Tick t :: post
       /\ state (autoController (do_calls pre (setup world0))) = Loading
       /\ Auto.RETRACT_TIME + Auto.LOAD_TIME
          <= Auto.elapsed t (start_load_time (autoController (do_calls pre (setup world0))))
       /\ forallb keeps_loaded post = true.
Proof.
  apply (loaded_only_after_loading (setup world0)
           [Cmd (CmdLoad 0); Tick 500; Tick 1700; Cmd (CmdFire 2000); Tick 2100]).
  - reflexivity.
  - vm_compute. reflexivity.
Defined.

(** ** The service callbacks *)

Lemma trigger_callbacks_succeed (now : Z) (res : Comms.TriggerResponse) (w : World) :
  Comms.success (fst (Comms.fireCallback now tt res w)) = true
  /\ Comms.success (fst (Comms.loadCallback now tt res w)) = true
  /\ Comms.success (fst (Comms.cancelCallback tt res w)) = true.
Proof. repeat split; reflexivity. Qed.

Lemma manualCallback_response
  (req : Comms.ManualRequest) (res : Comms.ManualResponse) (w : World) :
  fst (Comms.manualCallback req res w) = res.
Proof. reflexivity. Qed.

(** C1: the manual handler leaves the response as it received it.  On the
    request feeder = 40, shooter = -20, with the response as the service
    server constructs it, [success] is still false after the call, while the
    sequencer was cancelled and both actuators were set. *)
Theorem manualCallback_success_unset :
  let r := Comms.manualCallback (Comms.mkManualRequest 40 (-20))
                                Comms.ManualResponse0
                                (Auto.load 0 (setup world0)) in
  Comms.manual_success (fst r) = false
  /\ state (autoController (snd r)) = Idle
  /\ get (feeder (snd r)) = 40
  /\ goal (shooter (snd r)) = 1600.
Proof. vm_compute. repeat split; reflexivity. Qed.

(** * Further properties of the code *)

(** ** Victor: arriving at a goal, and what the servo shows *)

Lemma run_n_at_goal (n : nat) (v : Victor) : cur v = goal v -> run_n n v = v.
Proof.
  intros H. induction n as [| n IH]; [reflexivity |].
  rewrite run_n_S, IH. apply run_at_goal, H.
Qed.

Lemma run_n_add (a b : nat) (v : Victor) : run_n (a + b) v = run_n a (run_n b v).
Proof. unfold run_n. apply Nat.iter_add. Qed.

Lemma run_n_holds (k n : nat) (v : Victor) :
  cur (run_n k v) = goal v -> (k <= n)%nat -> run_n n v = run_n k v.
Proof.
  intros Hk Hn. replace n with ((n - k) + k)%nat by lia.
  rewrite run_n_add. apply run_n_at_goal.
  destruct (run_n_keeps k v) as [Hg _]. congruence.
Qed.

(** X1: from neutral, a command that is a multiple of 20 is reached step by
    step and then held.  With [cur = 1500] and [set(20*m)], [-5 <= m <= 5],
    the [j]-th call of [run], [j <= |m|], leaves [cur] at 1500 plus [j]
    steps of 100 toward the goal, the [|m|]-th call lands on the goal, and
    every later call leaves [cur] there. *)
Theorem Victor_ramp_arrives_and_holds
  (v : Victor) (b : Board) (m : Z) (j n : nat)
  (Hcur : cur v = 1500) (Hm : -5 <= m <= 5)
  (Hj : (j <= Z.to_nat (Z.abs m))%nat) (Hn : (Z.to_nat (Z.abs m) <= n)%nat) :
  let v' := fst (set (20 * m) v b) in
  goal v' = (if v_reversed v then 1500 - 100 * m else 1500 + 100 * m)
  /\ cur (run_n j v') = 1500 + ramp_step v' * Z.of_nat j
  /\ cur (run_n n v') = goal v'.
Proof.
  intros v'. destruct (Victor_set_goal v b (20 * m) ltac:(lia)) as (Hg & Hc & _).
  fold v' in Hg, Hc. rewrite Hcur in Hc.
  assert (Hg' : goal v' = if v_reversed v then 1500 - 100 * m else 1500 + 100 * m).
  { rewrite Hg. destruct (v_reversed v); lia. }
  set (k := Z.to_nat (Z.abs m)) in *.
  assert (Hgr : int_range (goal v')).
  { rewrite Hg'. unfold int_range. destruct (v_reversed v); lia. }
  assert (Hcr : int_range (cur v')) by (rewrite Hc; unfold int_range; lia).
  assert (Hsteps : forall i, (i <= k)%nat ->
                     cur (run_n i v') = 1500 + ramp_step v' * Z.of_nat i).
  { intros i Hi. unfold ramp_step.
    destruct (goal v' >? 1500) eqn:E; rewrite Z.gtb_ltb in E.
    - apply Z.ltb_lt in E.
      rewrite (ramp_up_arrives v' k i); try assumption; [lia |].
      rewrite Hc. unfold k. destruct (v_reversed v); lia.
    - apply Z.ltb_ge in E.
      destruct (Z.eq_dec (goal v') 1500) as [E0 | E0].
      + assert (i = 0)%nat by (unfold k in Hi; destruct (v_reversed v); lia).
        subst i. change (run_n 0 v') with v'. lia.
      + rewrite (ramp_down_arrives v' k i); try assumption; [lia | lia |].
        rewrite Hc. unfold k. destruct (v_reversed v); lia. }
  split; [exact Hg' |]. split; [apply Hsteps, Hj |].
  assert (Hk : cur (run_n k v') = goal v').
  { rewrite Hsteps by lia. unfold ramp_step.
    destruct (goal v' >? 1500) eqn:E; rewrite Z.gtb_ltb in E.
    - apply Z.ltb_lt in E. unfold k. destruct (v_reversed v); lia.
    - apply Z.ltb_ge in E. unfold k. destruct (v_reversed v); lia. }
  rewrite (run_n_holds k n v' Hk Hn). exact Hk.
Qed.

Lemma Victor_ramp_arrives_and_holds_witness :
  let v' := fst (set (20 * 5) shooter_ready board0) in
  goal v' = 1000
  /\ cur (run_n 3 v') = 1500 + ramp_step v' * Z.of_nat 3
  /\ cur (run_n 9 v') = goal v'.
Proof.
  apply (Victor_ramp_arrives_and_holds shooter_ready board0 5 3 9).
  - reflexivity.
  - lia.
  - vm_compute. lia.
  - vm_compute. lia.
Defined.

Lemma servo_pulse_do (op : VictorOp) (v : Victor) :
  servo_pulse v = Some (cur v) ->
  servo_pulse (victor_do op v) = Some (cur (victor_do op v)).
Proof.
  intros H. destruct op as [s | | r].
  - unfold victor_do, set. cbn [reversed _set Victor_SpeedController].
    destruct (v_reversed v); exact H.
  - unfold victor_do, VictorImpl.run.
    destruct (negb (cur v =? goal v)); [reflexivity | exact H].
  - exact H.
Qed.

(** X2: the servo always shows [cur].  After [init()], whatever calls of
    [set], [run] and [setReversed] follow, the pulse last written to the
    servo is the current value of [cur], and the servo is attached to the
    Victor's pin. *)
Theorem servo_shows_cur (ops : list VictorOp) (v : Victor) :
  servo_pulse (victor_ops ops (VictorImpl.init v))
  = Some (cur (victor_ops ops (VictorImpl.init v)))
  /\ attached (controller (victor_ops ops (VictorImpl.init v))) = Some (pin v).
Proof.
  assert (Hgen : forall ops u,
            servo_pulse u = Some (cur u) /\ attached (controller u) = Some (pin v) ->
            servo_pulse (victor_ops ops u) = Some (cur (victor_ops ops u))
            /\ attached (controller (victor_ops ops u)) = Some (pin v)).
  { clear ops. induction ops as [| op ops IH]; intros u Hu; [exact Hu |].
    change (victor_ops (op :: ops) u) with (victor_ops ops (victor_do op u)).
    apply IH. destruct Hu as [Hp Ha]. split; [apply servo_pulse_do, Hp |].
    destruct op as [s | | r].
    - unfold victor_do, set. cbn [reversed _set Victor_SpeedController].
      destruct (v_reversed u); exact Ha.
    - unfold victor_do, VictorImpl.run.
      destruct (negb (cur u =? goal u)); exact Ha.
    - exact Ha. }
  apply Hgen. split; reflexivity.
Qed.

(** ** Pololu: [set] on a reversed controller, and the lines it leaves alone *)

Lemma Pololu_set_effect (p : Pololu) (b : Board) (x : Z)
  (Hpins : inA_pin p <> inB_pin p) (Hx : -32767 <= x <= 32767) :
  let p' := fst (set x p b) in
  let b' := snd (set x p b) in
  speed p' = (if p_reversed p then - x else x)
  /\ pattern (lines p b')
     = Some (pattern_of_sign (if p_reversed p then - x else x))
  /\ analog b' (pwm_pin p) = (if x =? 0 then 0 else to_int (duty x))
  /\ get p' = x.
Proof.
  intros p' b'. subst p' b'.
  assert (Hget : get (fst (set x p b)) = x)
    by (apply Pololu_get_set; unfold int_range; lia).
  unfold set in *. cbn [reversed _set Pololu_SpeedController] in *.
  assert (Hopp : to_int (- x) = - x) by (apply to_int_id; unfold int_range; lia).
  assert (Hside : forall y, int_range y -> duty y = duty x -> (y =? 0) = (x =? 0) ->
            speed (fst (PololuImpl._set y p b)) = y
            /\ pattern (lines p (snd (PololuImpl._set y p b))) = Some (pattern_of_sign y)
            /\ analog (snd (PololuImpl._set y p b)) (pwm_pin p)
               = (if x =? 0 then 0 else to_int (duty x))).
  { intros y Hy Hd Hz.
    pose proof (Pololu_lines_after__set p b y Hpins Hy) as Hl.
    split; [rewrite Pololu_set_speed; reflexivity |].
    split.
    - rewrite Hl. unfold pattern_of_sign.
      destruct (y =? 0); [reflexivity |]. destruct (y <? 0); reflexivity.
    - unfold lines in Hl. rewrite <- Hz, <- Hd.
      destruct (y =? 0); [| destruct (y <? 0)]; injection Hl; auto. }
  destruct (p_reversed p).
  - rewrite Hopp in *.
    destruct (Hside (- x)) as (H1 & H2 & H3).
    + unfold int_range. lia.
    + unfold duty. rewrite Z.abs_opp. reflexivity.
    + destruct (Z.eqb_spec (- x) 0), (Z.eqb_spec x 0); try reflexivity; lia.
    + auto.
  - destruct (Hside x) as (H1 & H2 & H3); try reflexivity.
    + unfold int_range. lia.
    + auto.
Qed.

(** X3: [set(x)] through the [reversed] flag.  For [x] in
    [-32767, 32767], a reversed Pololu stores [-x] and shows the pattern of
    the opposite sign, an unreversed one stores [x] and shows the pattern of
    its sign, and [get()] returns [x] in both cases.  The PWM value written
    is |x| * 255 / 100 truncated, as analogWrite's [int] argument holds it:
    that number itself whenever |x| <= 12850. *)
Theorem Pololu_set_through_reversed (p : Pololu) (b : Board) (x : Z)
  (Hpins : inA_pin p <> inB_pin p) (Hx : -32767 <= x <= 32767) :
  let p' := fst (set x p b) in
  let b' := snd (set x p b) in
  speed p' = (if p_reversed p then - x else x)
  /\ pattern (lines p b')
     = Some (pattern_of_sign (if p_reversed p then - x else x))
  /\ analog b' (pwm_pin p) = to_int (duty x)
  /\ (Z.abs x <= 12850 -> analog b' (pwm_pin p) = duty x)
  /\ get p' = x.
Proof.
  destruct (Pololu_set_effect p b x Hpins Hx) as (Hs & Hp & Ha & Hg).
  assert (Ha' : analog (snd (set x p b)) (pwm_pin p) = to_int (duty x)).
  { rewrite Ha. destruct (Z.eqb_spec x 0) as [-> | _]; reflexivity. }
  split; [exact Hs |]. split; [exact Hp |]. split; [exact Ha' |].
  split; [| exact Hg].
  intros Hsmall. rewrite Ha'. apply duty_fits_int, Hsmall.
Qed.

Lemma Pololu_set_through_reversed_witness :
  let p := setReversed true (feeder world0) in
  let p' := fst (set 40 p board0) in
  let b' := snd (set 40 p board0) in
  speed p' = -40
  /\ pattern (lines p b') = Some Backward
  /\ analog b' (pwm_pin p) = 102
  /\ (Z.abs 40 <= 12850 -> analog b' (pwm_pin p) = duty 40)
  /\ get p' = 40.
Proof.
  assert (H1 : inA_pin (setReversed true (feeder world0))
               <> inB_pin (setReversed true (feeder world0)))
    by (vm_compute; discriminate).
  assert (H2 : -32767 <= 40 <= 32767) by lia.
  exact (Pololu_set_through_reversed (setReversed true (feeder world0)) board0 40 H1 H2).
Defined.

Lemma Pololu__set_other_lines (s : Z) (p : Pololu) (b : Board) (q : Z) :
  (q <> inA_pin p -> q <> inB_pin p ->
   digital (snd (PololuImpl._set s p b)) q = digital b q)
  /\ (q <> pwm_pin p -> analog (snd (PololuImpl._set s p b)) q = analog b q).
Proof.
  unfold PololuImpl._set.
  destruct (s =? 0); [| destruct (s <? 0); [| destruct (s >? 0)]];
    cbn [snd analogWrite digitalWrite digital analog];
    (split; [intros HA HB; rewrite ?upd_other by assumption; reflexivity
            | intros HP; rewrite ?upd_other by assumption; reflexivity]).
Qed.

(** X4: a Pololu writes its own three lines only.  Whatever value is set
    and whatever the [reversed] flag, [set] leaves the level of every pin
    [q] other than its two direction pins, and the duty of every pin [r]
    other than its PWM pin, as they were: also the level of the PWM pin and
    the duty of a direction pin. *)
Theorem Pololu_set_other_lines (s : Z) (p : Pololu) (b : Board) (q r : Z)
  (HA : q <> inA_pin p) (HB : q <> inB_pin p) (HP : r <> pwm_pin p) :
  digital (snd (set s p b)) q = digital b q
  /\ analog (snd (set s p b)) r = analog b r.
Proof.
  unfold set. cbn [reversed _set Pololu_SpeedController].
  destruct (p_reversed p).
  - destruct (Pololu__set_other_lines (to_int (- s)) p b q) as [Hd _].
    destruct (Pololu__set_other_lines (to_int (- s)) p b r) as [_ Ha]. auto.
  - destruct (Pololu__set_other_lines s p b q) as [Hd _].
    destruct (Pololu__set_other_lines s p b r) as [_ Ha]. auto.
Qed.

Lemma Pololu_set_other_lines_witness :
  let b := analogWrite FEEDER_A_PIN 77 (digitalWrite FEEDER_PWM_PIN HIGH board0) in
  digital (snd (set 70 (feeder world0) b)) FEEDER_PWM_PIN = HIGH
  /\ analog (snd (set 70 (feeder world0) b)) FEEDER_A_PIN = 77.
Proof.
  apply (Pololu_set_other_lines 70 (feeder world0)
           (analogWrite FEEDER_A_PIN 77 (digitalWrite FEEDER_PWM_PIN HIGH board0))
           FEEDER_PWM_PIN FEEDER_A_PIN);
    vm_compute; discriminate.
Defined.

(** ** [setReversed] between [set] and [get] *)

(** X5: [setReversed] writes the flag only.  Toggling it after [set(x)]
    leaves the stored speed and every board line as [set] left them, and
    [get()] then returns [-x]: the reading changes sign while the output
    does not. *)
Theorem setReversed_flips_reading (p : Pololu) (b : Board) (x : Z)
  (Hx : -32767 <= x <= 32767) :
  let p1 := fst (set x p b) in
  let p2 := setReversed (negb (p_reversed p)) p1 in
  speed p2 = speed p1
  /\ lines p2 (snd (set x p b)) = lines p1 (snd (set x p b))
  /\ get p1 = x
  /\ get p2 = - x.
Proof.
  intros p1 p2. subst p1 p2.
  assert (Hget : get (fst (set x p b)) = x)
    by (apply Pololu_get_set; unfold int_range; lia).
  split; [reflexivity |]. split; [reflexivity |]. split; [exact Hget |].
  assert (Hopp : to_int (- x) = - x) by (apply to_int_id; unfold int_range; lia).
  unfold get, set, setReversed in *.
  cbn [reversed put_reversed _set _get Pololu_SpeedController] in *.
  destruct (p_reversed p) eqn:Hr; rewrite Pololu_set_speed in *;
    cbn [PololuImpl.put_reversed PololuImpl.with_speed PololuImpl._get
         p_reversed speed negb] in *.
  - rewrite Hopp. reflexivity.
  - exact Hopp.
Qed.

Lemma setReversed_flips_reading_witness :
  let p1 := fst (set 60 (feeder world0) board0) in
  let p2 := setReversed (negb (p_reversed (feeder world0))) p1 in
  speed p2 = speed p1
  /\ lines p2 (snd (set 60 (feeder world0) board0))
     = lines p1 (snd (set 60 (feeder world0) board0))
  /\ get p1 = 60
  /\ get p2 = - 60.
Proof.
  apply (setReversed_flips_reading (feeder world0) board0 60). lia.
Defined.

(** ** The manual override *)

(** [map(x, -100, 100, 1000, 2000)] does not clamp: it is 1500 + 5x for
    every [x] an [int] can hold short of its minimum. *)
Lemma map_percent_pulse_unclamped (x : Z) :
  -32767 <= x <= 32767 -> Arduino.map x (-100) 100 1000 2000 = 1500 + 5 * x.
Proof.
  intros Hx. unfold Arduino.map.
  rewrite (to_long_id (x - -100)) by (unfold long_range; lia).
  rewrite (to_long_id (2000 - 1000)) by (unfold long_range; lia).
  rewrite (to_long_id (100 - -100)) by (unfold long_range; lia).
  rewrite (to_long_id ((x - -100) * (2000 - 1000))) by (unfold long_range; lia).
  replace ((x - -100) * (2000 - 1000)) with ((5 * (x + 100)) * (100 - -100)) by lia.
  rewrite Z.quot_mul by lia.
  rewrite to_long_id by (unfold long_range; lia). lia.
Qed.

Lemma Victor_set_goal_unclamped (v : Victor) (b : Board) (s : Z) :
  -128 <= s <= 127 ->
  goal (fst (set s v b)) = (if v_reversed v then 1500 - 5 * s else 1500 + 5 * s).
Proof.
  intros Hs. unfold set.
  cbn [reversed _set Victor_SpeedController].
  destruct (v_reversed v) eqn:Hr; cbn [VictorImpl._set fst goal].
  - rewrite (to_int_id (- s)) by (unfold int_range; lia).
    rewrite map_percent_pulse_unclamped by lia.
    rewrite to_int_id by (unfold int_range; lia). lia.
  - rewrite map_percent_pulse_unclamped by lia.
    rewrite to_int_id by (unfold int_range; lia). lia.
Qed.

Lemma config_cancel (w : World) : config (Auto.cancel w) = config w.
Proof.
  unfold Auto.cancel, Auto.reset, off.
  rewrite config_with_auto, config_on_shooter, config_on_feeder. reflexivity.
Qed.

Lemma duty_grows (x : Z) : 100 < Z.abs x -> 255 < duty x.
Proof.
  intros Hx. unfold duty.
  apply Z.lt_le_trans with (101 * 255 / 100); [reflexivity |].
  apply Z.div_le_mono; lia.
Qed.

(** X6: the manual request overrides the sequencer and clamps nothing.
    For request fields in the [int8] range, whatever the sequencer was
    doing, after [manualCallback] it is Idle with [loaded] clear, the feeder
    shows the pattern of the requested sign with duty |feeder| * 255 / 100
    and [get()] returns the requested value, and the shooter's goal is
    1500 + 5 * shooter (minus when reversed).  A field beyond 100 in size is
    passed on as it is: the duty exceeds 255 and the goal leaves
    [1000, 2000]. *)
Theorem manual_override (req : Comms.ManualRequest) (res : Comms.ManualResponse)
  (w : World)
  (Hw : wired w)
  (Hf : -128 <= Comms.req_feeder req <= 127)
  (Hs : -128 <= Comms.req_shooter req <= 127) :
  let w' := snd (Comms.manualCallback req res w) in
  let f := Comms.req_feeder req in
  let s := Comms.req_shooter req in
  autoController w' = mkAuto Idle 0 0 false
  /\ get (feeder w') = f
  /\ pattern (feeder_lines w')
     = Some (pattern_of_sign (if p_reversed (feeder w) then - f else f))
  /\ analog (board w') (pwm_pin (feeder w)) = duty f
  /\ goal (shooter w')
     = (if v_reversed (shooter w) then 1500 - 5 * s else 1500 + 5 * s)
  /\ (100 < Z.abs f -> 255 < analog (board w') (pwm_pin (feeder w)))
  /\ (100 < Z.abs s -> ~ (1000 <= goal (shooter w') <= 2000)).
Proof.
  intros w' f s. subst w'. unfold Comms.manualCallback. cbn [snd].
  fold f. fold s.
  set (wc := Auto.cancel w).
  set (wf := on_feeder (set f) wc).
  destruct (cancel_effect w) as (Hac & _). fold wc in Hac.
  pose proof (config_cancel w) as Hcc. fold wc in Hcc.
  destruct (config_same w wc Hcc) as (Hwc & _).
  assert (Hpr : p_reversed (feeder wc) = p_reversed (feeder w)
                /\ pwm_pin (feeder wc) = pwm_pin (feeder w)
                /\ v_reversed (shooter wc) = v_reversed (shooter w)).
  { unfold config in Hcc. injection Hcc as E1 E2 _ _ E5. auto. }
  destruct Hpr as (Hpr & Hpp & Hvr).
  destruct (on_feeder_set_frame f wc) as (Haf & Hsf & _). fold wf in Haf, Hsf.
  destruct (on_shooter_set_frame s wf) as (Has & Hfs & Hbs & _).
  destruct (world_shooter_set s wf) as (Hls & _ & Hgs).
  destruct (Pololu_set_effect (feeder wc) (board wc) f (Hwc Hw) ltac:(lia))
    as (_ & Hpat & Hduty & Hget).
  assert (Hfl : feeder_lines wf = lines (feeder wc) (snd (set f (feeder wc) (board wc))))
    by apply feeder_lines_on_feeder.
  assert (Hfe : feeder wf = fst (set f (feeder wc) (board wc))
                /\ board wf = snd (set f (feeder wc) (board wc))).
  { unfold wf. rewrite on_feeder_eq. split; reflexivity. }
  destruct Hfe as (Hfe & Hbe).
  assert (Hanalog : analog (board (on_shooter (set s) wf)) (pwm_pin (feeder w)) = duty f).
  { rewrite Hbs, Hbe, <- Hpp, Hduty. unfold duty.
    destruct (Z.eqb_spec f 0) as [-> | Hne]; [reflexivity |].
    apply to_int_id. unfold int_range.
    assert (0 <= Z.abs f * 255 / 100) by (apply Z.div_pos; lia).
    assert (Z.abs f * 255 / 100 <= Z.abs f * 255) by (apply Z.div_le_upper_bound; lia).
    lia. }
  assert (Hgoal : goal (shooter (on_shooter (set s) wf))
                  = if v_reversed (shooter w) then 1500 - 5 * s else 1500 + 5 * s).
  { rewrite Hgs, Hsf, Victor_set_goal_unclamped by lia. rewrite Hvr. reflexivity. }
  split; [rewrite Has, Haf, Hac; reflexivity |].
  split; [rewrite Hfs, Hfe; exact Hget |].
  split; [rewrite Hls, Hfl, Hpat, Hpr; reflexivity |].
  split; [exact Hanalog |].
  split; [exact Hgoal |].
  split.
  - intros Hbig. rewrite Hanalog. apply duty_grows, Hbig.
  - intros Hbig. rewrite Hgoal. destruct (v_reversed (shooter w)); lia.
Qed.

Lemma manual_override_witness :
  let req := Comms.mkManualRequest 40 (-127) in
  let w := Auto.load 0 (setup world0) in
  let w' := snd (Comms.manualCallback req Comms.ManualResponse0 w) in
  autoController w' = mkAuto Idle 0 0 false
  /\ get (feeder w') = 40
  /\ pattern (feeder_lines w') = Some Forward
  /\ analog (board w') (pwm_pin (feeder w)) = 102
  /\ goal (shooter w') = 2135
  /\ (100 < Z.abs 40 -> 255 < analog (board w') (pwm_pin (feeder w)))
  /\ (100 < Z.abs (-127) -> ~ (1000 <= goal (shooter w') <= 2000)).
Proof.
  assert (Hw : wired (Auto.load 0 (setup world0))) by (vm_compute; discriminate).
  assert (Hf : -128 <= 40 <= 127) by lia.
  assert (Hs : -128 <= -127 <= 127) by lia.
  exact (manual_override (Comms.mkManualRequest 40 (-127)) Comms.ManualResponse0
           (Auto.load 0 (setup world0)) Hw Hf Hs).
Defined.

(** ** Phase timing across the rollover of [millis()] *)

Lemma elapsed_across_rollover (t0 d : Z) :
  0 <= d < 2 ^ 32 -> Auto.elapsed (to_ulong (t0 + d)) t0 = d.
Proof.
  intros Hd. unfold Auto.elapsed, to_ulong, LONG_BITS.
  rewrite Zminus_mod_idemp_l.
  replace (t0 + d - t0) with d by lia.
  apply Z.mod_small. exact Hd.
Qed.

Lemma auto_after_run_firing (now : Z) (w : World) :
  state (autoController w) = Firing ->
  autoController (Auto.run now w)
  = (if Auto.elapsed now (start_fire_time (autoController w)) <? Auto.QUICKFIRE_TIME
     then autoController w
     else mkAuto 0 (start_load_time (autoController w)) 0 false).
Proof.
  intros Hst.
  destruct (Z.ltb_spec (Auto.elapsed now (start_fire_time (autoController w)))
                       Auto.QUICKFIRE_TIME) as [Hlt | Hge].
  - rewrite run_firing_on by assumption.
    destruct (on_feeder_set_frame 100 (on_shooter on w)) as (Ha & _).
    destruct (on_shooter_set_frame 100 w) as (Ha' & _).
    fold (@on Pololu _) in Ha. fold (@on Victor _) in Ha'. congruence.
  - rewrite run_firing_done by assumption. apply with_auto_frame.
Qed.

Lemma auto_after_run_loading (now : Z) (w : World) :
  state (autoController w) = Loading ->
  autoController (Auto.run now w)
  = (if Auto.elapsed now (start_load_time (autoController w))
        <? Auto.RETRACT_TIME + Auto.LOAD_TIME
     then autoController w
     else mkAuto 0 0 (start_fire_time (autoController w)) true).
Proof.
  intros Hst.
  destruct (Z.ltb_spec (Auto.elapsed now (start_load_time (autoController w)))
                       (Auto.RETRACT_TIME + Auto.LOAD_TIME)) as [Hlt | Hge].
  - destruct (Z_lt_ge_dec (Auto.elapsed now (start_load_time (autoController w)))
                          Auto.RETRACT_TIME) as [Hr | Hr].
    + rewrite run_loading_retract by assumption. apply (on_feeder_set_frame (-100)).
    + rewrite run_loading_extend by (try assumption; lia).
      apply (on_feeder_set_frame 100).
  - rewrite run_loading_done by assumption. apply with_auto_frame.
Qed.

(** X7: the phases end on time across the rollover of [millis()].  When
    the clock read [t0] at [fire()] or [load()] and the tick comes [d]
    milliseconds later, [d] below 2^32, the tick sees the clock modulo 2^32
    and still measures [d]: the firing phase is over exactly when
    [d >= 300], the loading phase exactly when [d >= 1650], which is also
    when [loaded] is set. *)
Theorem phases_end_across_rollover (w : World) (t0 d : Z)
  (Hd : 0 <= d < 2 ^ 32) :
  let now := to_ulong (t0 + d) in
  state (autoController (Auto.run now (Auto.fire t0 w)))
  = (if d <? Auto.QUICKFIRE_TIME then Firing else Idle)
  /\ state (autoController (Auto.run now (Auto.load t0 w)))
     = (if d <? Auto.RETRACT_TIME + Auto.LOAD_TIME then Loading else Idle)
  /\ loaded (autoController (Auto.run now (Auto.load t0 w)))
     = negb (d <? Auto.RETRACT_TIME + Auto.LOAD_TIME).
Proof.
  intros now. pose proof (elapsed_across_rollover t0 d Hd) as He. fold now in He.
  rewrite auto_after_run_firing by reflexivity.
  rewrite auto_after_run_loading by reflexivity.
  cbn [Auto.fire Auto.load with_auto autoController start_fire_time start_load_time].
  rewrite He.
  destruct (d <? Auto.QUICKFIRE_TIME);
    destruct (d <? Auto.RETRACT_TIME + Auto.LOAD_TIME); repeat split; reflexivity.
Qed.

Lemma phases_end_across_rollover_witness :
  let now := to_ulong (4294967000 + 400) in
  state (autoController (Auto.run now (Auto.fire 4294967000 (setup world0))))
  = (if 400 <? Auto.QUICKFIRE_TIME then Firing else Idle)
  /\ state (autoController (Auto.run now (Auto.load 4294967000 (setup world0))))
     = (if 400 <? Auto.RETRACT_TIME + Auto.LOAD_TIME then Loading else Idle)
  /\ loaded (autoController (Auto.run now (Auto.load 4294967000 (setup world0))))
     = negb (400 <? Auto.RETRACT_TIME + Auto.LOAD_TIME).
Proof.
  apply (phases_end_across_rollover (setup world0) 4294967000 400). lia.
Defined.

(** ** cancel() and the passes of [loop()] that follow *)

Lemma loop_body_idle (now : Z) (w : World) :
  state (autoController w) = Idle ->
  loop_body now w
  = mkWorld (VictorImpl.run (shooter w)) (feeder w) (autoController w) (board w).
Proof.
  intros Hst. unfold loop_body. rewrite run_idle by exact Hst. reflexivity.
Qed.

Lemma loop_body_settled (now : Z) (w : World) :
  state (autoController w) = Idle -> cur (shooter w) = goal (shooter w) ->
  loop_body now w = w.
Proof.
  intros Hst Hc. rewrite loop_body_idle by exact Hst.
  rewrite run_at_goal by exact Hc. destruct w; reflexivity.
Qed.

Lemma loops_settled (ts : list Z) (w : World) :
  state (autoController w) = Idle -> cur (shooter w) = goal (shooter w) ->
  loops ts w = w.
Proof.
  intros Hst Hc. induction ts as [| t ts IH]; [reflexivity |].
  change (loops (t :: ts) w) with (loops ts (loop_body t w)).
  rewrite loop_body_settled by assumption. exact IH.
Qed.

(** X8: a cancel takes hold within one pass of [loop()] and lasts.  From
    any world, after [cancel()] the first pass leaves the sequencer Idle,
    the feeder's lines low with duty 0 and the shooter's [cur] and goal at
    1500, with 1500 written to the servo if [cur] was elsewhere; every
    further pass, at any clock reading, changes nothing. *)
Theorem cancel_settles_in_one_pass (w : World) (now : Z) (ts : list Z) :
  let w1 := loop_body now (Auto.cancel w) in
  autoController w1 = mkAuto Idle 0 0 false
  /\ feeder_lines w1 = (LOW, LOW, 0)
  /\ cur (shooter w1) = 1500
  /\ goal (shooter w1) = 1500
  /\ (cur (shooter w) <> 1500 -> servo_pulse (shooter w1) = Some 1500)
  /\ loops ts w1 = w1.
Proof.
  intros w1. set (wc := Auto.cancel w) in *.
  destruct (cancel_effect w) as (Ha & Hl & _ & _ & Hg & Hc).
  fold wc in Ha, Hl, Hg, Hc.
  assert (Hst : state (autoController wc) = Idle) by (rewrite Ha; reflexivity).
  assert (Hw1 : w1 = mkWorld (VictorImpl.run (shooter wc)) (feeder wc)
                             (autoController wc) (board wc))
    by (apply loop_body_idle, Hst).
  destruct (run_keeps (shooter wc)) as (Hgr & _).
  assert (Hcur : cur (shooter wc) = cur (shooter w)).
  { unfold wc, Auto.cancel, Auto.reset.
    destruct (with_auto_frame (mkAuto 0 0 0 false) (on_shooter off (on_feeder off w)))
      as (_ & -> & _).
    rewrite on_shooter_eq. cbn [shooter].
    destruct (on_feeder_set_frame 0 w) as (_ & Hs & _).
    fold (@off Pololu _) in Hs. rewrite Hs.
    unfold off, set. cbn [reversed _set Victor_SpeedController].
    destruct (v_reversed (shooter w)); reflexivity. }
  rewrite Hw1. cbn [autoController shooter].
  split; [exact Ha |]. split; [exact Hl |]. split; [exact Hc |].
  split; [rewrite Hgr; exact Hg |].
  split.
  - intros Hne. unfold VictorImpl.run. rewrite Hg, Hcur.
    destruct (cur (shooter w) =? 1500) eqn:E; [apply Z.eqb_eq in E; contradiction |].
    reflexivity.
  - apply loops_settled; cbn [autoController shooter]; [exact Hst | congruence].
Qed.

Lemma cancel_settles_in_one_pass_witness :
  let w := on_shooter on (setup world0) in
  let w1 := loop_body 100 (Auto.cancel (loops [0; 100; 200] w)) in
  autoController w1 = mkAuto Idle 0 0 false
  /\ feeder_lines w1 = (LOW, LOW, 0)
  /\ cur (shooter w1) = 1500
  /\ goal (shooter w1) = 1500
  /\ (cur (shooter (loops [0; 100; 200] w)) <> 1500 ->
      servo_pulse (shooter w1) = Some 1500)
  /\ loops [200; 300] w1 = w1.
Proof.
  apply (cancel_settles_in_one_pass
           (loops [0; 100; 200] (on_shooter on (setup world0))) 100 [200; 300]).
Defined.

(** ** The shooter while a load is in progress *)

Lemma shooter_after_run_loading (now : Z) (w : World) :
  state (autoController w) = Loading ->
  Auto.elapsed now (start_load_time (autoController w))
    < Auto.RETRACT_TIME + Auto.LOAD_TIME ->
  shooter (Auto.run now w) = shooter w.
Proof.
  intros Hst Hlt.
  destruct (Z_lt_ge_dec (Auto.elapsed now (start_load_time (autoController w)))
                        Auto.RETRACT_TIME) as [Hr | Hr].
  - rewrite run_loading_retract by assumption. apply (on_feeder_set_frame (-100)).
  - rewrite run_loading_extend by (try assumption; lia).
    apply (on_feeder_set_frame 100).
Qed.

Lemma shooter_while_loading (ts : list Z) (w : World) :
  state (autoController w) = Loading ->
  Forall (fun t => Auto.elapsed t (start_load_time (autoController w))
                   < Auto.RETRACT_TIME + Auto.LOAD_TIME) ts ->
  shooter (ticks ts w) = shooter w.
Proof.
  revert w. induction ts as [| t ts IH]; intros w Hst Hts; [reflexivity |].
  change (ticks (t :: ts) w) with (ticks ts (Auto.run t w)).
  inversion Hts as [| ? ? Ht Hts']; subst.
  assert (Ha : autoController (Auto.run t w) = autoController w).
  { rewrite auto_after_run_loading by exact Hst.
    apply Z.ltb_lt in Ht. rewrite Ht. reflexivity. }
  rewrite IH; rewrite ?Ha; auto.
  apply shooter_after_run_loading; assumption.
Qed.

Lemma shooter_through_load (w : World) (t0 : Z) (ts : list Z) (t : Z)
  (Hts : Forall (fun ti => Auto.elapsed ti t0
                           < Auto.RETRACT_TIME + Auto.LOAD_TIME) ts)
  (Ht : Auto.RETRACT_TIME + Auto.LOAD_TIME <= Auto.elapsed t t0) :
  shooter (ticks ts (Auto.load t0 w)) = shooter w
  /\ goal (shooter (Auto.run t (ticks ts (Auto.load t0 w)))) = goal_on (shooter w)
  /\ cur (shooter (Auto.run t (ticks ts (Auto.load t0 w)))) = cur (shooter w).
Proof.
  set (w1 := Auto.load t0 w).
  assert (Hst : state (autoController w1) = Loading) by reflexivity.
  assert (Hsh : shooter (ticks ts w1) = shooter w).
  { rewrite shooter_while_loading; [reflexivity | exact Hst | exact Hts]. }
  assert (Ham : autoController (ticks ts w1) = autoController w1).
  { apply ticks_while_loading; [exact Hst | exact Hts]. }
  split; [exact Hsh |].
  set (wm := ticks ts w1) in *.
  rewrite run_loading_done by (rewrite Ham; first [exact Hst | exact Ht]).
  destruct (with_auto_frame
              (mkAuto 0 0 (start_fire_time (autoController wm)) true)
              (on_shooter on (on_feeder off wm))) as (_ & -> & _).
  destruct (stop_feeder_start_shooter wm) as (_ & Hg & _).
  rewrite Hg, Hsh. split; [reflexivity |].
  rewrite on_shooter_eq. cbn [shooter].
  destruct (on_feeder_set_frame 0 wm) as (_ & Hs & _).
  fold (@off Pololu _) in Hs. rewrite Hs, Hsh.
  destruct (Victor_set_goal (shooter w) (board (on_feeder off wm)) 100 ltac:(lia))
    as (_ & Hc & _).
  exact Hc.
Qed.

(** X9: loading never touches the shooter before it completes.  [load()]
    and every tick of the loading phase before RETRACT_TIME + LOAD_TIME
    leave the shooter object as it was, so a load started while the shooter
    is commanded on (after a load or during a firing phase) keeps it on, and
    one started from rest keeps it at rest until the completing tick turns
    it on. *)
Theorem load_leaves_shooter (w : World) (t0 : Z) (ts : list Z) (t : Z)
  (Hts : Forall (fun ti => Auto.elapsed ti t0
                           < Auto.RETRACT_TIME + Auto.LOAD_TIME) ts)
  (Ht : Auto.RETRACT_TIME + Auto.LOAD_TIME <= Auto.elapsed t t0) :
  shooter (ticks ts (Auto.load t0 w)) = shooter w
  /\ goal (shooter (Auto.run t (ticks ts (Auto.load t0 w)))) = goal_on (shooter w)
  /\ cur (shooter (Auto.run t (ticks ts (Auto.load t0 w)))) = cur (shooter w).
Proof. exact (shooter_through_load w t0 ts t Hts Ht). Qed.

Lemma load_leaves_shooter_witness :
  let w := Auto.run 100 (Auto.fire 0 (setup world0)) in
  shooter (ticks [600; 1200] (Auto.load 200 w)) = shooter w
  /\ goal (shooter (Auto.run 1900 (ticks [600; 1200] (Auto.load 200 w))))
     = goal_on (shooter w)
  /\ cur (shooter (Auto.run 1900 (ticks [600; 1200] (Auto.load 200 w))))
     = cur (shooter w).
Proof.
  apply (load_leaves_shooter (Auto.run 100 (Auto.fire 0 (setup world0)))
           200 [600; 1200] 1900).
  - repeat constructor.
  - vm_compute. discriminate.
Defined.

(** ** The shooter's ramp during a firing phase *)

Lemma loops_snoc (ts : list Z) (t : Z) (w : World) :
  loops (ts ++ [t]) w = loop_body t (loops ts w).
Proof. unfold loops. rewrite fold_left_app. reflexivity. Qed.

Lemma loop_body_firing (now : Z) (w : World) :
  state (autoController w) = Firing ->
  Auto.elapsed now (start_fire_time (autoController w)) < Auto.QUICKFIRE_TIME ->
  autoController (loop_body now w) = autoController w
  /\ shooter (loop_body now w) = VictorImpl.run (fst (on (shooter w) (board w))).
Proof.
  intros Hst Ht. unfold loop_body. cbn [autoController shooter].
  rewrite run_firing_on by assumption.
  destruct (on_feeder_set_frame 100 (on_shooter on w)) as (Ha & Hs & _).
  destruct (on_shooter_set_frame 100 w) as (Ha' & _).
  fold (@on Pololu _) in Ha, Hs. fold (@on Victor _) in Ha'.
  rewrite Ha, Hs, Ha'. split; [reflexivity |].
  rewrite on_shooter_eq. reflexivity.
Qed.

(** X10: in a firing phase the shooter gains one step per pass of
    [loop()].  Starting with the shooter's [cur] at 1500, after [fire()] at
    [t0] and [n <= 5] passes whose clock readings are all less than
    QUICKFIRE_TIME after [t0], the sequencer is still Firing and [cur] is
    1500 plus [n] steps of 100 toward the [on()] goal (downward when the
    shooter is reversed). *)
Theorem firing_passes_ramp_shooter (w : World) (t0 : Z) (ts : list Z)
  (Hcur : cur (shooter w) = 1500)
  (Hts : Forall (fun t => Auto.elapsed t t0 < Auto.QUICKFIRE_TIME) ts)
  (Hlen : (List.length ts <= 5)%nat) :
  let w' := loops ts (Auto.fire t0 w) in
  state (autoController w') = Firing
  /\ cur (shooter w')
     = 1500 + (if v_reversed (shooter w) then -100 else 100) * Z.of_nat (List.length ts).
Proof.
  intros w'. subst w'.
  set (w1 := Auto.fire t0 w).
  assert (Hinv : autoController (loops ts w1) = autoController w1
                 /\ v_reversed (shooter (loops ts w1)) = v_reversed (shooter w)
                 /\ cur (shooter (loops ts w1))
                    = 1500 + (if v_reversed (shooter w) then -100 else 100)
                             * Z.of_nat (List.length ts)).
  { induction ts as [| t ts IH] using rev_ind.
    - split; [reflexivity |]. split; [reflexivity |].
      change (cur (shooter w)
              = 1500 + (if v_reversed (shooter w) then -100 else 100) * 0).
      rewrite Hcur, Z.mul_0_r. reflexivity.
    - apply Forall_app in Hts. destruct Hts as [Hts Ht].
      inversion Ht as [| ? ? Ht' _]; subst.
      rewrite List.length_app in Hlen |- *. cbn [List.length] in Hlen |- *.
      destruct (IH Hts ltac:(lia)) as (Ha & Hr & Hc).
      rewrite loops_snoc. set (wm := loops ts w1) in *.
      destruct (loop_body_firing t wm) as (Ha2 & Hs2).
      { rewrite Ha. reflexivity. }
      { rewrite Ha. exact Ht'. }
      destruct (Victor_set_goal (shooter wm) (board wm) 100 ltac:(lia))
        as (Hg & Hcs & Hrs).
      fold (@on Victor _) in Hg, Hcs, Hrs.
      set (v := fst (on (shooter wm) (board wm))) in *.
      destruct (run_keeps v) as (_ & Hrk & _).
      rewrite Ha2, Hs2, Hrk, Hrs, Hr. split; [exact Ha |]. split; [reflexivity |].
      rewrite Hr in Hg. rewrite Hc in Hcs.
      destruct (v_reversed (shooter w)).
      + rewrite run_step_down; rewrite ?Hg, ?Hcs; lia.
      + rewrite run_step_up; rewrite ?Hg, ?Hcs; lia. }
  destruct Hinv as (Ha & _ & Hc). rewrite Ha. split; [reflexivity | exact Hc].
Qed.

Lemma firing_passes_ramp_shooter_witness :
  let w' := loops [0; 100; 200] (Auto.fire 0 (setup world0)) in
  state (autoController w') = Firing
  /\ cur (shooter w')
     = 1500 + (if v_reversed (shooter (setup world0)) then -100 else 100)
              * Z.of_nat (List.length [0; 100; 200]).
Proof.
  apply (firing_passes_ramp_shooter (setup world0) 0 [0; 100; 200]).
  - reflexivity.
  - repeat constructor.
  - simpl. lia.
Defined.

(** ** The continuous-feed controller *)

Lemma cont_on_feeder_eq (m : Pololu -> Board -> Pololu * Board) (w : Continuous.World) :
  Continuous.on_feeder m w =
  Continuous.mkWorld (Continuous.shooter w)
    (fst (m (Continuous.feeder w) (Continuous.board w)))
    (Continuous.autoController w)
    (snd (m (Continuous.feeder w) (Continuous.board w))).
Proof.
  unfold Continuous.on_feeder.
  destruct (m (Continuous.feeder w) (Continuous.board w)); reflexivity.
Qed.

Lemma cont_on_shooter_eq (m : Victor -> Board -> Victor * Board) (w : Continuous.World) :
  Continuous.on_shooter m w =
  Continuous.mkWorld (fst (m (Continuous.shooter w) (Continuous.board w)))
    (Continuous.feeder w) (Continuous.autoController w)
    (snd (m (Continuous.shooter w) (Continuous.board w))).
Proof.
  unfold Continuous.on_shooter.
  destruct (m (Continuous.shooter w) (Continuous.board w)); reflexivity.
Qed.

(** What a world of the continuous build shows: whether it is shooting,
    the shooter's goal and [reversed] flag, the feeder's lines and wiring. *)
Lemma cont_shooter_set (s : Z) (w : Continuous.World) :
  let w' := Continuous.on_shooter (set s) w in
  Continuous.autoController w' = Continuous.autoController w
  /\ Continuous.feeder w' = Continuous.feeder w
  /\ Continuous.board w' = Continuous.board w
  /\ Continuous.shooter w' = fst (set s (Continuous.shooter w) (Continuous.board w)).
Proof.
  intros w'. subst w'. rewrite cont_on_shooter_eq.
  cbn [Continuous.autoController Continuous.feeder Continuous.board Continuous.shooter].
  destruct (Victor_set_frame s (Continuous.shooter w) (Continuous.board w)) as (-> & _).
  auto.
Qed.

Lemma cont_feeder_set (s : Z) (w : Continuous.World) :
  let w' := Continuous.on_feeder (set s) w in
  Continuous.autoController w' = Continuous.autoController w
  /\ Continuous.shooter w' = Continuous.shooter w
  /\ p_reversed (Continuous.feeder w') = p_reversed (Continuous.feeder w)
  /\ (Continuous.wired w -> Continuous.wired w')
  /\ Continuous.feeder_lines w'
     = lines (Continuous.feeder w)
             (snd (set s (Continuous.feeder w) (Continuous.board w))).
Proof.
  intros w'. subst w'. rewrite cont_on_feeder_eq.
  unfold Continuous.wired, Continuous.feeder_lines.
  cbn [Continuous.autoController Continuous.feeder Continuous.board Continuous.shooter].
  destruct (Pololu_set_frame s (Continuous.feeder w) (Continuous.board w))
    as (Hr & Ha & Hb & Hp).
  rewrite Hr, Ha, Hb. repeat split; auto.
  apply lines_same_pins; assumption.
Qed.

Lemma cont_stop_both (w : Continuous.World) :
  let w' := Continuous.on_shooter off (Continuous.on_feeder off w) in
  Continuous.autoController w' = Continuous.autoController w
  /\ goal (Continuous.shooter w') = 1500
  /\ v_reversed (Continuous.shooter w') = v_reversed (Continuous.shooter w)
  /\ p_reversed (Continuous.feeder w') = p_reversed (Continuous.feeder w)
  /\ (Continuous.wired w -> Continuous.wired w')
  /\ Continuous.feeder_lines w' = (LOW, LOW, 0).
Proof.
  intros w'. subst w'. set (w1 := Continuous.on_feeder off w).
  destruct (cont_feeder_set 0 w) as (Ha & Hs & Hr & Hw & Hl).
  fold (@off Pololu _) in Ha, Hs, Hr, Hw, Hl. fold w1 in Ha, Hs, Hr, Hw, Hl.
  destruct (cont_shooter_set 0 w1) as (Ha1 & Hf1 & Hb1 & Hs1).
  fold (@off Victor _) in Ha1, Hf1, Hb1, Hs1.
  destruct (feeder_off_lines (Continuous.feeder w) (Continuous.board w)) as (Hoff & _).
  destruct (Victor_set_frame 0 (Continuous.shooter w1) (Continuous.board w1)) as (_ & Hvr).
  fold (@off Victor _) in Hvr.
  unfold Continuous.wired, Continuous.feeder_lines in *.
  rewrite Ha1, Hf1, Hb1, Hs1, shooter_off_goal, Hvr, Hs, Ha, Hr, Hl, Hoff.
  repeat split; auto.
Qed.

Section ContinuousRun.
Variables (now : Z) (w : Continuous.World).
Hypothesis Hshooting : Continuous.auto_shoot (Continuous.autoController w) = true.

Lemma cont_run_spin :
  Continuous.since now w < Continuous.SPIN_UP_TIME ->
  Continuous.run now w = Continuous.on_shooter on w.
Proof.
  unfold Continuous.run, Continuous.since. rewrite Hshooting. intros Ht.
  apply Z.ltb_lt in Ht. cbv zeta. rewrite Ht. reflexivity.
Qed.

Lemma cont_run_feed :
  Continuous.SPIN_UP_TIME < Continuous.since now w < Continuous.TOTAL_TIME ->
  Continuous.run now w = Continuous.on_feeder on w.
Proof.
  unfold Continuous.run, Continuous.since. rewrite Hshooting. intros [Hlo Hhi].
  cbv zeta.
  assert (E1 : (to_ulong (now - Continuous.start_shoot_time (Continuous.autoController w))
                <? Continuous.SPIN_UP_TIME) = false) by (apply Z.ltb_ge; lia).
  assert (E2 : (to_ulong (now - Continuous.start_shoot_time (Continuous.autoController w))
                >? Continuous.SPIN_UP_TIME) = true)
    by (rewrite Z.gtb_ltb; apply Z.ltb_lt; lia).
  apply Z.ltb_lt in Hhi. rewrite E1, E2, Hhi. reflexivity.
Qed.

Lemma cont_run_end :
  Continuous.TOTAL_TIME < Continuous.since now w ->
  Continuous.run now w = Continuous.cancel w.
Proof.
  unfold Continuous.run, Continuous.since. rewrite Hshooting. intros Ht.
  cbv zeta.
  assert (Ht' : 13000 < to_ulong (now - Continuous.start_shoot_time
                                         (Continuous.autoController w))) by exact Ht.
  assert (E1 : (to_ulong (now - Continuous.start_shoot_time (Continuous.autoController w))
                <? Continuous.SPIN_UP_TIME) = false)
    by (apply Z.ltb_ge; unfold Continuous.SPIN_UP_TIME; lia).
  assert (E3 : (to_ulong (now - Continuous.start_shoot_time (Continuous.autoController w))
                <? Continuous.TOTAL_TIME) = false) by (apply Z.ltb_ge; lia).
  assert (E4 : (to_ulong (now - Continuous.start_shoot_time (Continuous.autoController w))
                >? Continuous.TOTAL_TIME) = true)
    by (rewrite Z.gtb_ltb; apply Z.ltb_lt; exact Ht).
  rewrite E1, E3, E4, andb_false_r. reflexivity.
Qed.

Lemma cont_run_gap :
  Continuous.since now w = Continuous.SPIN_UP_TIME
  \/ Continuous.since now w = Continuous.TOTAL_TIME ->
  Continuous.run now w = w.
Proof.
  unfold Continuous.run, Continuous.since. rewrite Hshooting. cbv zeta.
  intros [-> | ->]; reflexivity.
Qed.

End ContinuousRun.

Lemma cont_run_not_shooting (now : Z) (w : Continuous.World) :
  Continuous.auto_shoot (Continuous.autoController w) = false ->
  Continuous.run now w = w.
Proof. unfold Continuous.run. intros ->. reflexivity. Qed.

Lemma cont_ticks_not_shooting (ts : list Z) (w : Continuous.World) :
  Continuous.auto_shoot (Continuous.autoController w) = false ->
  Continuous.ticks ts w = w.
Proof.
  intros H. induction ts as [| t ts IH]; [reflexivity |].
  change (Continuous.ticks (t :: ts) w)
    with (Continuous.ticks ts (Continuous.run t w)).
  rewrite cont_run_not_shooting by exact H. exact IH.
Qed.

Lemma cont_ticks_spin (ts : list Z) (t : Z) (w : Continuous.World) :
  Continuous.auto_shoot (Continuous.autoController w) = true ->
  Forall (fun ti => to_ulong (ti - Continuous.start_shoot_time (Continuous.autoController w))
                    < Continuous.SPIN_UP_TIME) (t :: ts) ->
  let w' := Continuous.ticks (t :: ts) w in
  Continuous.autoController w' = Continuous.autoController w
  /\ Continuous.feeder w' = Continuous.feeder w
  /\ Continuous.board w' = Continuous.board w
  /\ v_reversed (Continuous.shooter w') = v_reversed (Continuous.shooter w)
  /\ goal (Continuous.shooter w') = goal_on (Continuous.shooter w).
Proof.
  revert t w. induction ts as [| t' ts IH]; intros t w Hsh Hts w'; subst w';
    inversion Hts as [| ? ? Ht Hts']; subst;
    change (Continuous.ticks (t :: ?l) w)
      with (Continuous.ticks l (Continuous.run t w));
    rewrite (cont_run_spin t w Hsh Ht);
    destruct (cont_shooter_set 100 w) as (Ha & Hf & Hb & Hs);
    fold (@on Victor _) in Ha, Hf, Hb, Hs;
    destruct (Victor_set_frame 100 (Continuous.shooter w) (Continuous.board w))
      as (_ & Hvr);
    fold (@on Victor _) in Hvr.
  - cbn [Continuous.ticks fold_left].
    rewrite Ha, Hf, Hb, Hs, Hvr, shooter_on_goal. repeat split; reflexivity.
  - destruct (IH t' (Continuous.on_shooter on w)) as (Ha2 & Hf2 & Hb2 & Hr2 & Hg2).
    + rewrite Ha. exact Hsh.
    + rewrite Ha. exact Hts'.
    + rewrite Ha2, Hf2, Hb2, Hr2, Hg2, Ha, Hf, Hb, Hs, Hvr.
      unfold goal_on. rewrite Hvr. repeat split; reflexivity.
Qed.

Lemma cont_ticks_feed (ts : list Z) (t : Z) (w : Continuous.World) :
  Continuous.auto_shoot (Continuous.autoController w) = true ->
  Continuous.wired w ->
  Forall (fun ti => Continuous.SPIN_UP_TIME
                    < to_ulong (ti - Continuous.start_shoot_time (Continuous.autoController w))
                    < Continuous.TOTAL_TIME) (t :: ts) ->
  let w' := Continuous.ticks (t :: ts) w in
  Continuous.autoController w' = Continuous.autoController w
  /\ Continuous.shooter w' = Continuous.shooter w
  /\ p_reversed (Continuous.feeder w') = p_reversed (Continuous.feeder w)
  /\ Continuous.wired w'
  /\ Continuous.feeder_lines w' = lines_on (Continuous.feeder w).
Proof.
  revert t w. induction ts as [| t' ts IH]; intros t w Hsh Hw Hts w'; subst w';
    inversion Hts as [| ? ? Ht Hts']; subst;
    change (Continuous.ticks (t :: ?l) w)
      with (Continuous.ticks l (Continuous.run t w));
    rewrite (cont_run_feed t w Hsh Ht);
    destruct (cont_feeder_set 100 w) as (Ha & Hs & Hr & Hwd & Hl);
    fold (@on Pololu _) in Ha, Hs, Hr, Hwd, Hl;
    destruct (feeder_on_lines (Continuous.feeder w) (Continuous.board w) Hw) as (Hon & _).
  - cbn [Continuous.ticks fold_left].
    rewrite Ha, Hs, Hr, Hl, Hon. repeat split; auto.
  - destruct (IH t' (Continuous.on_feeder on w)) as (Ha2 & Hs2 & Hr2 & Hw2 & Hl2).
    + rewrite Ha. exact Hsh.
    + apply Hwd, Hw.
    + rewrite Ha. exact Hts'.
    + rewrite Ha2, Hs2, Hr2, Hl2, Ha, Hs, Hr.
      unfold lines_on. rewrite Hr. repeat split; auto.
Qed.

(** X11: one cycle of the continuous-feed controller.  After [shoot()] at
    [t0], ticks less than SPIN_UP_TIME later command the shooter on while
    the feeder's lines stay low; ticks strictly between SPIN_UP_TIME and
    TOTAL_TIME later put the feeder on with the shooter still commanded on;
    the first tick more than TOTAL_TIME later turns both off and ends the
    shooting, after which ticks change nothing.  A tick exactly
    SPIN_UP_TIME or exactly TOTAL_TIME after [t0] commands nothing: the
    world is left as it was, still shooting. *)
Theorem continuous_shoot_cycle
  (w : Continuous.World) (t0 t1 t2 t3 tb : Z) (ts1 ts2 ts4 : list Z)
  (Hw : Continuous.wired w)
  (H1 : Forall (fun t => to_ulong (t - t0) < Continuous.SPIN_UP_TIME) (t1 :: ts1))
  (H2 : Forall (fun t => Continuous.SPIN_UP_TIME < to_ulong (t - t0)
                         < Continuous.TOTAL_TIME) (t2 :: ts2))
  (H3 : Continuous.TOTAL_TIME < to_ulong (t3 - t0))
  (Hb : to_ulong (tb - t0) = Continuous.SPIN_UP_TIME
        \/ to_ulong (tb - t0) = Continuous.TOTAL_TIME) :
  let wA := Continuous.ticks (t1 :: ts1) (Continuous.shoot t0 w) in
  let wB := Continuous.ticks (t2 :: ts2) wA in
  let wC := Continuous.run t3 wB in
  (Continuous.shooting wA = true
   /\ goal (Continuous.shooter wA) = goal_on (Continuous.shooter w)
   /\ Continuous.feeder_lines wA = (LOW, LOW, 0))
  /\ (Continuous.shooting wB = true
      /\ goal (Continuous.shooter wB) = goal_on (Continuous.shooter w)
      /\ Continuous.feeder_lines wB = lines_on (Continuous.feeder w))
  /\ (Continuous.shooting wC = false
      /\ goal (Continuous.shooter wC) = 1500
      /\ Continuous.feeder_lines wC = (LOW, LOW, 0)
      /\ Continuous.ticks ts4 wC = wC)
  /\ (Continuous.run tb wA = wA /\ Continuous.run tb wB = wB).
Proof.
  intros wA wB wC.
  set (w0 := Continuous.shoot t0 w) in *.
  destruct (cont_stop_both w) as (_ & _ & Hr0 & Hp0 & Hw0 & Hl0).
  set (ws := Continuous.on_shooter off (Continuous.on_feeder off w)) in *.
  assert (Ha0 : Continuous.autoController w0 = Continuous.mkAuto t0 true) by reflexivity.
  assert (Hs0 : Continuous.shooter w0 = Continuous.shooter ws) by reflexivity.
  assert (Hf0 : Continuous.feeder w0 = Continuous.feeder ws) by reflexivity.
  assert (Hb0 : Continuous.board w0 = Continuous.board ws) by reflexivity.
  destruct (cont_ticks_spin ts1 t1 w0) as (HaA & HfA & HbA & HrA & HgA).
  { rewrite Ha0. reflexivity. }
  { rewrite Ha0. exact H1. }
  fold wA in HaA, HfA, HbA, HrA, HgA.
  assert (HwA : Continuous.wired wA).
  { unfold Continuous.wired. rewrite HfA, Hf0. apply Hw0, Hw. }
  destruct (cont_ticks_feed ts2 t2 wA) as (HaB & HsB & HrB & HwB & HlB).
  { rewrite HaA, Ha0. reflexivity. }
  { exact HwA. }
  { rewrite HaA, Ha0. exact H2. }
  fold wB in HaB, HsB, HrB, HwB, HlB.
  assert (HgonA : goal (Continuous.shooter wA) = goal_on (Continuous.shooter w)).
  { rewrite HgA, Hs0. unfold goal_on. rewrite Hr0. reflexivity. }
  assert (HlA : Continuous.feeder_lines wA = (LOW, LOW, 0)).
  { unfold Continuous.feeder_lines in *. rewrite HfA, HbA, Hf0, Hb0. exact Hl0. }
  assert (HshA : Continuous.auto_shoot (Continuous.autoController wA) = true)
    by (rewrite HaA, Ha0; reflexivity).
  assert (HshB : Continuous.auto_shoot (Continuous.autoController wB) = true)
    by (rewrite HaB; exact HshA).
  split; [split; [exact HshA | split; [exact HgonA | exact HlA]] |].
  split.
  { split; [exact HshB |]. split; [rewrite HsB; exact HgonA |].
    rewrite HlB. unfold lines_on. rewrite HfA, Hf0, Hp0. reflexivity. }
  split.
  { assert (HC : wC = Continuous.cancel wB).
    { apply cont_run_end; [exact HshB |].
      unfold Continuous.since. rewrite HaB, HaA, Ha0. exact H3. }
    destruct (cont_stop_both wB) as (_ & Hg & _ & _ & _ & Hl).
    assert (Hsh : Continuous.shooting wC = false) by (rewrite HC; reflexivity).
    split; [exact Hsh |].
    split; [rewrite HC; exact Hg |].
    split; [rewrite HC; exact Hl |].
    apply cont_ticks_not_shooting. exact Hsh. }
  split; apply cont_run_gap; try assumption;
    unfold Continuous.since; rewrite ?HaB, HaA, Ha0; exact Hb.
Qed.

Lemma continuous_shoot_cycle_witness :
  let w := Continuous.mkWorld shooter_ready (feeder world0) Continuous.new board0 in
  let wA := Continuous.ticks [100; 900] (Continuous.shoot 0 w) in
  let wB := Continuous.ticks [1100; 12900] wA in
  let wC := Continuous.run 13100 wB in
  (Continuous.shooting wA = true
   /\ goal (Continuous.shooter wA) = goal_on (Continuous.shooter w)
   /\ Continuous.feeder_lines wA = (LOW, LOW, 0))
  /\ (Continuous.shooting wB = true
      /\ goal (Continuous.shooter wB) = goal_on (Continuous.shooter w)
      /\ Continuous.feeder_lines wB = lines_on (Continuous.feeder w))
  /\ (Continuous.shooting wC = false
      /\ goal (Continuous.shooter wC) = 1500
      /\ Continuous.feeder_lines wC = (LOW, LOW, 0)
      /\ Continuous.ticks [13200] wC = wC)
  /\ (Continuous.run 13000 wA = wA /\ Continuous.run 13000 wB = wB).
Proof.
  apply (continuous_shoot_cycle
           (Continuous.mkWorld shooter_ready (feeder world0) Continuous.new board0)
           0 100 1100 13100 13000 [900] [12900] [13200]).
  - vm_compute. discriminate.
  - repeat constructor.
  - repeat constructor.
  - reflexivity.
  - right. reflexivity.
Defined.

(** ** What [get()] reads while the Victor ramps *)

Lemma ramp_from_neutral (v : Victor) (b : Board) (m : Z) (j : nat) :
  cur v = 1500 -> -5 <= m <= 5 -> (j <= Z.to_nat (Z.abs m))%nat ->
  cur (run_n j (fst (set (20 * m) v b)))
  = 1500 + 5 * ((if v_reversed v then -20 else 20) * Z.sgn m * Z.of_nat j).
Proof.
  intros Hcur Hm Hj. set (v' := fst (set (20 * m) v b)).
  destruct (Victor_set_goal v b (20 * m) ltac:(lia)) as (Hg & Hc & _).
  fold v' in Hg, Hc. rewrite Hcur in Hc.
  assert (Hcr : int_range (cur v')) by (rewrite Hc; unfold int_range; lia).
  assert (Hgr : int_range (goal v'))
    by (rewrite Hg; unfold int_range; destruct (v_reversed v); lia).
  destruct (Z.lt_trichotomy m 0) as [Hneg | [H0 | Hpos]].
  - rewrite (Z.sgn_neg m Hneg). destruct (v_reversed v).
    + rewrite (ramp_up_arrives v' (Z.to_nat (Z.abs m)) j); try assumption; lia.
    + rewrite (ramp_down_arrives v' (Z.to_nat (Z.abs m)) j); try assumption; lia.
  - subst m. assert (j = 0)%nat by (simpl in Hj; lia). subst j.
    change (run_n 0 v') with v'. rewrite Hc. destruct (v_reversed v); reflexivity.
  - rewrite (Z.sgn_pos m Hpos). destruct (v_reversed v).
    + rewrite (ramp_down_arrives v' (Z.to_nat (Z.abs m)) j); try assumption; lia.
    + rewrite (ramp_up_arrives v' (Z.to_nat (Z.abs m)) j); try assumption; lia.
Qed.

(** X12: while the Victor ramps from neutral, [get()] follows the output,
    not the command.  With [cur = 1500] and [set(20*m)], [-5 <= m <= 5],
    after [j <= |m|] calls of [run] [get()] returns [20*j] with the sign of
    [m], reversed or not: 0 right after [set], the commanded value only from
    the [|m|]-th call on. *)
Theorem Victor_get_follows_ramp (v : Victor) (b : Board) (m : Z) (j : nat)
  (Hcur : cur v = 1500) (Hm : -5 <= m <= 5)
  (Hj : (j <= Z.to_nat (Z.abs m))%nat) :
  get (run_n j (fst (set (20 * m) v b))) = 20 * Z.sgn m * Z.of_nat j.
Proof.
  pose proof (ramp_from_neutral v b m j Hcur Hm Hj) as Hc.
  destruct (run_n_keeps j (fst (set (20 * m) v b))) as [_ Hr].
  destruct (Victor_set_goal v b (20 * m) ltac:(lia)) as (_ & _ & Hr').
  unfold get. cbn [reversed _get Victor_SpeedController].
  unfold VictorImpl._get. rewrite Hr, Hr', Hc.
  assert (Hb : -5 <= Z.sgn m * Z.of_nat j <= 5).
  { destruct (Z.lt_trichotomy m 0) as [Hneg | [H0 | Hpos]].
    - rewrite (Z.sgn_neg m Hneg). lia.
    - subst m. simpl. lia.
    - rewrite (Z.sgn_pos m Hpos). lia. }
  set (q := Z.sgn m * Z.of_nat j) in *.
  destruct (v_reversed v).
  - replace (-20 * Z.sgn m * Z.of_nat j) with (- 20 * q) by (unfold q; lia).
    rewrite map_pulse_percent by lia.
    rewrite (to_int_id (-20 * q)) by (unfold int_range; lia).
    rewrite to_int_id by (unfold int_range; lia). lia.
  - replace (20 * Z.sgn m * Z.of_nat j) with (20 * q) by (unfold q; lia).
    rewrite map_pulse_percent by lia.
    rewrite to_int_id by (unfold int_range; lia). reflexivity.
Qed.

Lemma Victor_get_follows_ramp_witness :
  get (run_n 2 (fst (set (20 * 5) shooter_ready board0))) = 20 * Z.sgn 5 * Z.of_nat 2.
Proof.
  apply (Victor_get_follows_ramp shooter_ready board0 5 2).
  - reflexivity.
  - lia.
  - vm_compute. lia.
Defined.

(** ** [loaded] without a load *)


(** X13: without a [load()] the flag [loaded] is never set.  From a world
    with [loaded] clear that is not Loading, any sequence of fire(),
    cancel() and tick() calls leaves [loaded] clear and never enters
    Loading. *)
Theorem no_load_no_loaded (w0 : World) (cs : list Call)
  (Hinit : loaded (autoController w0) = false)
  (Hstate : state (autoController w0) <> Loading)
  (Hcs : forallb (fun c => negb (is_load c)) cs = true) :
  loaded (autoController (do_calls cs w0)) = false
  /\ state (autoController (do_calls cs w0)) <> Loading.
Proof.
  revert w0 Hinit Hstate. induction cs as [| c cs IH]; intros w0 Hinit Hstate.
  - split; assumption.
  - cbn [forallb] in Hcs. apply andb_true_iff in Hcs. destruct Hcs as [Hc Hcs].
    change (do_calls (c :: cs) w0) with (do_calls cs (do_call c w0)).
    assert (Hstep : loaded (autoController (do_call c w0)) = false
                    /\ state (autoController (do_call c w0)) <> Loading).
    { destruct c as [[now | now |] | now].
      - discriminate Hc.
      - split; [exact Hinit | discriminate].
      - destruct (cancel_effect w0) as (Ha & _).
        change (do_call (Cmd CmdCancel) w0) with (Auto.cancel w0).
        rewrite Ha. split; [reflexivity | discriminate].
      - change (do_call (Tick now) w0) with (Auto.run now w0).
        destruct (run_auto_cases now w0) as [E | [(Hl & _) | (_ & _ & E)]].
        + rewrite E. split; assumption.
        + contradiction.
        + rewrite E. split; [reflexivity | discriminate]. }
    destruct Hstep as [Hl Hs]. apply IH; assumption.
Qed.

Lemma no_load_no_loaded_witness :
  loaded (autoController
            (do_calls [Cmd (CmdFire 0); Tick 100; Tick 400; Cmd CmdCancel; Tick 500]
                      (setup world0))) = false
  /\ state (autoController
            (do_calls [Cmd (CmdFire 0); Tick 100; Tick 400; Cmd CmdCancel; Tick 500]
                      (setup world0))) <> Loading.
Proof.
  apply (no_load_no_loaded (setup world0)
           [Cmd (CmdFire 0); Tick 100; Tick 400; Cmd CmdCancel; Tick 500]).
  - reflexivity.
  - vm_compute. discriminate.
  - reflexivity.
Defined.

(** ** Spin-up after a completed load *)




(** ** The pass of [loop()] that ends a firing phase *)

(** X15: the pass that ends the firing phase also stops the shooter.  In
    a pass of [loop()] whose clock reading is QUICKFIRE_TIME or more after
    [fire()], the sequencer turns both actuators off and goes Idle with
    [loaded] clear, and the call of [shooter.run()] in the same pass already
    brings [cur] back to 1500, however far the ramp had come. *)
Theorem firing_end_pass_stops_shooter (w : World) (now : Z)
  (Hst : state (autoController w) = Firing)
  (Ht : Auto.QUICKFIRE_TIME
        <= Auto.elapsed now (start_fire_time (autoController w))) :
  let w' := loop_body now w in
  state (autoController w') = Idle
  /\ loaded (autoController w') = false
  /\ feeder_lines w' = (LOW, LOW, 0)
  /\ goal (shooter w') = 1500
  /\ cur (shooter w') = 1500.
Proof.
  intros w'. subst w'. unfold loop_body.
  rewrite run_firing_done by assumption.
  set (ws := on_shooter off (on_feeder off w)).
  destruct (stop_both w) as (_ & Hg & Hl & _). fold ws in Hg, Hl.
  destruct (with_auto_frame (mkAuto 0 (start_load_time (autoController w)) 0 false) ws)
    as (Ha & Hs & Hf & Hb & _).
  unfold feeder_lines in *. cbn [autoController shooter feeder board].
  rewrite Ha, Hs, Hf, Hb.
  destruct (run_keeps (shooter ws)) as (Hgr & _).
  split; [reflexivity |]. split; [reflexivity |]. split; [exact Hl |].
  split; [rewrite Hgr; exact Hg |].
  unfold VictorImpl.run. rewrite Hg.
  destruct (cur (shooter ws) =? 1500) eqn:E; cbn [negb cur].
  - apply Z.eqb_eq in E. exact E.
  - reflexivity.
Qed.

Lemma firing_end_pass_stops_shooter_witness :
  let w := loops [0; 100; 200] (Auto.fire 0 (setup world0)) in
  let w' := loop_body 300 w in
  state (autoController w') = Idle
  /\ loaded (autoController w') = false
  /\ feeder_lines w' = (LOW, LOW, 0)
  /\ goal (shooter w') = 1500
  /\ cur (shooter w') = 1500.
Proof.
  apply (firing_end_pass_stops_shooter
           (loops [0; 100; 200] (Auto.fire 0 (setup world0))) 300).
  - vm_compute. reflexivity.
  - vm_compute. discriminate.
Defined.
